(** * exa-effect: the streaming and error-normalisation core

    A shallow embedding of the parts of [src/client.ts] and [src/effect.ts]
    that carry protocol content: the SSE line reassembler, the blocking and
    the incremental SSE consumers, the chunk decoder, the guard of the
    non-streaming answer call, the error normaliser of the Effect wrapper,
    the generator-to-stream adapter and the research poller wrapper.

    Conventions.  A JavaScript string is a list of UTF-16 code units
    ([jstring]); a byte chunk ([Uint8Array]) is a [list byte]; exceptions are
    an explicit [result]; a generator is the list of the values it yields
    together with the way it finishes. *)

From Stdlib Require Import ZArith NArith List String Ascii Bool Lia.
From Stdlib.Strings Require Import Byte.
Import ListNotations.

Set Implicit Arguments.
Set Warnings "-register-all".

(* ===================================================================== *)
(** * Definitions                                                         *)
(* ===================================================================== *)

(** ** JavaScript strings *)

Definition jstring := list N.

(** A literal of the source, code unit by code unit. *)
Definition lit (s : string) : jstring :=
  map N_of_ascii (list_ascii_of_string s).

Fixpoint text_eqb (a b : jstring) : bool :=
  match a, b with
  | [], [] => true
  | x :: a', y :: b' => N.eqb x y && text_eqb a' b'
  | _, _ => false
  end.

(** [s.startsWith(p)], and the rest of [s] behind [p] when it does. *)
Fixpoint strip_prefix (p s : jstring) : option jstring :=
  match p, s with
  | [], _ => Some s
  | x :: p', y :: s' => if N.eqb x y then strip_prefix p' s' else None
  | _ :: _, [] => None
  end.

Definition startsWith (s p : jstring) : bool :=
  match strip_prefix p s with Some _ => true | None => false end.

(** The characters matched by the regular expression class [\s] and removed
    by [String.prototype.trim]: WhiteSpace and LineTerminator of ECMAScript. *)
Definition is_space (c : N) : bool :=
  ((9 <=? c) && (c <=? 13) || (c =? 32) || (c =? 160) || (c =? 5760)
   || (8192 <=? c) && (c <=? 8202) || (c =? 8232) || (c =? 8233)
   || (c =? 8239) || (c =? 8287) || (c =? 12288) || (c =? 65279))%N.

Fixpoint drop_space (s : jstring) : jstring :=
  match s with
  | c :: s' => if is_space c then drop_space s' else s
  | [] => []
  end.

(** [s.trim()] *)
Definition trim (s : jstring) : jstring :=
  rev (drop_space (rev (drop_space s))).

(** [s.replace(/^data:\s*/, "")] *)
Definition replace_data_prefix (s : jstring) : jstring :=
  match strip_prefix (lit "data:") s with
  | Some r => drop_space r
  | None => s
  end.

(** [s.split("\n")]: never empty, the last piece is what follows the last
    line feed. *)
Fixpoint split_nl (s : jstring) : list jstring :=
  match s with
  | [] => [[]]
  | c :: s' =>
      if N.eqb c 10 then [] :: split_nl s'
      else match split_nl s' with
           | l :: ls => (c :: l) :: ls
           | [] => [[c]]
           end
  end.

(** [lines.pop() || ""] leaves the other elements in [lines]. *)
Definition pop (lines : list jstring) : list jstring * jstring :=
  (removelast lines, last lines []).

(** ** TextDecoder

    [new TextDecoder()] is the UTF-8 decoder of the Encoding Standard, not
    fatal, BOM not ignored.  [decode(value, {stream: true})] runs the
    decoder's handler over the bytes of the chunk and keeps the state for
    the next call. *)

Record TextDecoder := mkDecoder {
  code_point : N;
  bytes_seen : N;
  bytes_needed : N;
  lower_boundary : N;
  upper_boundary : N;
  bom_seen : bool
}.

Definition new_TextDecoder : TextDecoder :=
  mkDecoder 0 0 0 128 191 false.

Definition replacement : N := 65533.

(** The handler when no continuation byte is awaited.  Returns the new
    state and the code points it emits. *)
Definition utf8_lead (d : TextDecoder) (b : N) : TextDecoder * list N :=
  let idle := mkDecoder 0 0 0 128 191 (bom_seen d) in
  if (b <=? 127)%N then (idle, [b])
  else if ((194 <=? b) && (b <=? 223))%N then
    (mkDecoder (N.land b 31) 0 1 128 191 (bom_seen d), [])
  else if ((224 <=? b) && (b <=? 239))%N then
    (mkDecoder (N.land b 15) 0 2
       (if (b =? 224)%N then 160 else 128)
       (if (b =? 237)%N then 159 else 191) (bom_seen d), [])
  else if ((240 <=? b) && (b <=? 244))%N then
    (mkDecoder (N.land b 7) 0 3
       (if (b =? 240)%N then 144 else 128)
       (if (b =? 244)%N then 143 else 191) (bom_seen d), [])
  else (idle, [replacement]).

Definition utf8_handler (d : TextDecoder) (b : N) : TextDecoder * list N :=
  if (bytes_needed d =? 0)%N then utf8_lead d b
  else if negb ((lower_boundary d <=? b) && (b <=? upper_boundary d))%N then
    (* the byte is put back and read again by a reset decoder *)
    let '(d', out) := utf8_lead d b in (d', replacement :: out)
  else
    let cp := N.lor (N.shiftl (code_point d) 6) (N.land b 63) in
    let seen := (bytes_seen d + 1)%N in
    if (seen =? bytes_needed d)%N
    then (mkDecoder 0 0 0 128 191 (bom_seen d), [cp])
    else (mkDecoder cp seen (bytes_needed d) 128 191 (bom_seen d), []).

(** A scalar value as UTF-16 code units. *)
Definition utf16 (cp : N) : jstring :=
  if (cp <=? 65535)%N then [cp]
  else [(55296 + N.shiftr (cp - 65536) 10)%N;
        (56320 + N.land (cp - 65536) 1023)%N].

(** Serialisation of the emitted code points: the first one is dropped when
    it is the byte order mark. *)
Fixpoint serialize (seen : bool) (cps : list N) : bool * jstring :=
  match cps with
  | [] => (seen, [])
  | cp :: rest =>
      let '(seen', out) := serialize true rest in
      (seen', if negb seen && (cp =? 65279)%N then out else utf16 cp ++ out)
  end.

Definition decode_byte (d : TextDecoder) (b : byte) : TextDecoder * jstring :=
  let '(d1, cps) := utf8_handler d (Byte.to_N b) in
  let '(seen, out) := serialize (bom_seen d1) cps in
  (mkDecoder (code_point d1) (bytes_seen d1) (bytes_needed d1)
     (lower_boundary d1) (upper_boundary d1) seen, out).

(** [decoder.decode(value, { stream: true })] *)
Fixpoint decode (d : TextDecoder) (value : list byte) : TextDecoder * jstring :=
  match value with
  | [] => (d, [])
  | b :: rest =>
      let '(d1, out1) := decode_byte d b in
      let '(d2, out2) := decode d1 rest in
      (d2, out1 ++ out2)
  end.

(** ** JavaScript values

    Numbers are kept as exact decimals [m * 10^e]; only their type and
    their truthiness are ever inspected. *)

Inductive number :=
| NaN
| Dec (m e : Z).

Definition num (z : Z) : number := Dec z 0.

(** A decimal whose double is zero: zero itself, or a magnitude of at most
    [2^-1075], which rounds to zero. *)
Definition number_is_zero (n : number) : bool :=
  match n with
  | NaN => false
  | Dec m e =>
      (m =? 0)%Z
      || ((e <? 0)%Z && (Z.abs m * 2 ^ 1075 <=? 10 ^ (- e))%Z)
  end.

Definition number_truthy (n : number) : bool :=
  match n with
  | NaN => false
  | _ => negb (number_is_zero n)
  end.

(** What [JSON.parse] returns. *)
Inductive json :=
| JNull
| JBool (b : bool)
| JNum (n : number)
| JStr (s : jstring)
| JArr (xs : list json)
| JObj (props : list (jstring * json)).

(** A value read out of a parsed payload: [None] is [undefined]. *)
Definition jsval := option json.

Definition truthy (v : jsval) : bool :=
  match v with
  | None | Some JNull => false
  | Some (JBool b) => b
  | Some (JNum n) => number_truthy n
  | Some (JStr s) => match s with [] => false | _ => true end
  | Some (JArr _) | Some (JObj _) => true
  end.

(** Own property of a parsed object; a key given twice holds its last
    value. *)
Fixpoint lookup (k : jstring) (props : list (jstring * json)) : jsval :=
  match props with
  | [] => None
  | (k', v) :: rest =>
      match lookup k rest with
      | Some w => Some w
      | None => if text_eqb k k' then Some v else None
      end
  end.

(** ** Errors *)

(** Modelled from the spec: the [HttpStatusCode] enum of [src/errors.ts],
    which is not among the sources; the members used here carry the
    standard HTTP codes (the tests expect 401 for [Unauthorized]). *)
Module HttpStatusCode.
Definition BadRequest : number := num 400.
Definition InternalServerError : number := num 500.
End HttpStatusCode.

(** Modelled from the spec: the [ExaError] class of [src/errors.ts], which
    is not among the sources: the typed error, carrying message, HTTP
    status, optional timestamp and optional request path, as given to the
    constructor. *)
Record ExaError := mkExaError {
  message : json;
  statusCode : number;
  timestamp : option jstring;
  path : option jstring
}.

Inductive error :=
| TypeError
| ExaErr (e : ExaError).

Inductive result (A : Type) :=
| Ok (a : A)
| Throw (e : error).
Arguments Ok {A} a.
Arguments Throw {A} e.

Definition bind {A B} (r : result A) (k : A -> result B) : result B :=
  match r with
  | Ok a => k a
  | Throw e => Throw e
  end.

Notation "x <- r ;; k" := (bind r (fun x => k))
  (at level 61, r at next level, right associativity).

(** [v.k] for a name [k] that no prototype defines (every name read by the
    client is one): reading a property of [null] or [undefined] throws. *)
Definition get (v : jsval) (k : string) : result jsval :=
  match v with
  | None | Some JNull => Throw TypeError
  | Some (JObj props) => Ok (lookup (lit k) props)
  | Some _ => Ok None
  end.

(** [v[0]] *)
Definition get0 (v : jsval) : result jsval :=
  match v with
  | None | Some JNull => Throw TypeError
  | Some (JArr xs) => Ok (nth_error xs 0)
  | Some (JStr (c :: _)) => Ok (Some (JStr [c]))
  | Some (JObj props) => Ok (lookup (lit "0") props)
  | Some _ => Ok None
  end.

(** [v === "s"] *)
Definition is_string (v : jsval) (s : string) : bool :=
  match v with
  | Some (JStr t) => text_eqb t (lit s)
  | _ => false
  end.

(** ** JSON.parse

    The grammar of ECMA-404 read one code unit at a time, with the open
    arrays and objects on a stack. *)

Inductive frame :=
| FArr (acc : list json)
| FObj (acc : list (jstring * json)) (key : jstring).

Inductive escape :=
| ENone
| EBackslash
| EUnicode (read : nat) (acc : N).

Inductive num_state :=
| NMinus | NZero | NInt | NDot | NFrac | NExp | NExpSign | NExpDigits.

Record num_acc := mkNum {
  n_neg : bool; n_mant : Z; n_frac : Z; n_eneg : bool; n_exp : Z;
  n_state : num_state
}.

Inductive mode :=
| MValue (fresh_array : bool)
| MKey (acc : list (jstring * json)) (fresh_object : bool)
| MKeyStr (acc : list (jstring * json)) (s : jstring) (e : escape)
| MColon (acc : list (jstring * json)) (key : jstring)
| MStr (s : jstring) (e : escape)
| MNum (n : num_acc)
| MLit (rest : jstring) (v : json)
| MAfter (v : json).

Definition is_json_ws (c : N) : bool :=
  ((c =? 32) || (c =? 9) || (c =? 10) || (c =? 13))%N.

Definition digit (c : N) : option Z :=
  if ((48 <=? c) && (c <=? 57))%N then Some (Z.of_N (c - 48)) else None.

Definition hex_digit (c : N) : option N :=
  if ((48 <=? c) && (c <=? 57))%N then Some (c - 48)%N
  else if ((65 <=? c) && (c <=? 70))%N then Some (c - 55)%N
  else if ((97 <=? c) && (c <=? 102))%N then Some (c - 87)%N
  else None.

Inductive string_step_result :=
| SFail
| SMore (s : jstring) (e : escape)
| SDone (s : jstring).

(** One code unit inside a string literal; [s] is kept newest first. *)
Definition string_step (s : jstring) (e : escape) (c : N) : string_step_result :=
  match e with
  | ENone =>
      if (c =? 34)%N then SDone (rev s)
      else if (c =? 92)%N then SMore s EBackslash
      else if (c <? 32)%N then SFail
      else SMore (c :: s) ENone
  | EBackslash =>
      if (c =? 34)%N || (c =? 92)%N || (c =? 47)%N then SMore (c :: s) ENone
      else if (c =? 98)%N then SMore (8%N :: s) ENone
      else if (c =? 102)%N then SMore (12%N :: s) ENone
      else if (c =? 110)%N then SMore (10%N :: s) ENone
      else if (c =? 114)%N then SMore (13%N :: s) ENone
      else if (c =? 116)%N then SMore (9%N :: s) ENone
      else if (c =? 117)%N then SMore s (EUnicode 0 0)
      else SFail
  | EUnicode read acc =>
      match hex_digit c with
      | None => SFail
      | Some h =>
          let acc' := (acc * 16 + h)%N in
          if Nat.eqb read 3 then SMore (acc' :: s) ENone
          else SMore s (EUnicode (S read) acc')
      end
  end.

Definition num_accepting (n : num_acc) : bool :=
  match n_state n with
  | NZero | NInt | NFrac | NExpDigits => true
  | _ => false
  end.

Definition num_value (n : num_acc) : json :=
  JNum (Dec (if n_neg n then - n_mant n else n_mant n)
            ((if n_eneg n then - n_exp n else n_exp n) - n_frac n)).

Definition is_e (c : N) : bool := ((c =? 101) || (c =? 69))%N.

(** One more code unit of a number, when it continues the number. *)
Definition num_step (n : num_acc) (c : N) : option num_acc :=
  let with_state st := mkNum (n_neg n) (n_mant n) (n_frac n) (n_eneg n) (n_exp n) st in
  let int_digit d st :=
    mkNum (n_neg n) (n_mant n * 10 + d) (n_frac n) (n_eneg n) (n_exp n) st in
  let frac_digit d :=
    mkNum (n_neg n) (n_mant n * 10 + d) (n_frac n + 1) (n_eneg n) (n_exp n) NFrac in
  let exp_digit d :=
    mkNum (n_neg n) (n_mant n) (n_frac n) (n_eneg n) (n_exp n * 10 + d) NExpDigits in
  match n_state n with
  | NMinus =>
      match digit c with
      | Some d => Some (int_digit d (if (d =? 0)%Z then NZero else NInt))
      | None => None
      end
  | NZero =>
      if (c =? 46)%N then Some (with_state NDot)
      else if is_e c then Some (with_state NExp)
      else None
  | NInt =>
      match digit c with
      | Some d => Some (int_digit d NInt)
      | None =>
          if (c =? 46)%N then Some (with_state NDot)
          else if is_e c then Some (with_state NExp)
          else None
      end
  | NDot =>
      match digit c with Some d => Some (frac_digit d) | None => None end
  | NFrac =>
      match digit c with
      | Some d => Some (frac_digit d)
      | None => if is_e c then Some (with_state NExp) else None
      end
  | NExp =>
      match digit c with
      | Some d => Some (exp_digit d)
      | None =>
          if (c =? 43)%N then Some (with_state NExpSign)
          else if (c =? 45)%N then
            Some (mkNum (n_neg n) (n_mant n) (n_frac n) true (n_exp n) NExpSign)
          else None
      end
  | NExpSign | NExpDigits =>
      match digit c with Some d => Some (exp_digit d) | None => None end
  end.

Definition pstate := (mode * list frame)%type.

(** A value is awaited. *)
Definition value_step (fresh_array : bool) (stack : list frame) (c : N)
  : option pstate :=
  if is_json_ws c then Some (MValue fresh_array, stack)
  else if (c =? 123)%N then Some (MKey [] true, stack)
  else if (c =? 91)%N then Some (MValue true, FArr [] :: stack)
  else if (c =? 34)%N then Some (MStr [] ENone, stack)
  else if (c =? 45)%N then Some (MNum (mkNum true 0 0 false 0 NMinus), stack)
  else if (c =? 116)%N then Some (MLit (lit "rue") (JBool true), stack)
  else if (c =? 102)%N then Some (MLit (lit "alse") (JBool false), stack)
  else if (c =? 110)%N then Some (MLit (lit "ull") JNull, stack)
  else if (c =? 93)%N then
    match fresh_array, stack with
    | true, FArr [] :: stack' => Some (MAfter (JArr []), stack')
    | _, _ => None
    end
  else
    match digit c with
    | Some d =>
        Some (MNum (mkNum false d 0 false 0 (if (d =? 0)%Z then NZero else NInt)),
              stack)
    | None => None
    end.

(** A value [v] is complete. *)
Definition after_step (v : json) (stack : list frame) (c : N) : option pstate :=
  if is_json_ws c then Some (MAfter v, stack)
  else if (c =? 44)%N then
    match stack with
    | FArr acc :: stack' => Some (MValue false, FArr (v :: acc) :: stack')
    | FObj acc key :: stack' => Some (MKey ((key, v) :: acc) false, stack')
    | [] => None
    end
  else if (c =? 93)%N then
    match stack with
    | FArr acc :: stack' => Some (MAfter (JArr (rev (v :: acc))), stack')
    | _ => None
    end
  else if (c =? 125)%N then
    match stack with
    | FObj acc key :: stack' => Some (MAfter (JObj (rev ((key, v) :: acc))), stack')
    | _ => None
    end
  else None.

Definition parse_step (st : pstate) (c : N) : option pstate :=
  let '(m, stack) := st in
  match m with
  | MValue fresh => value_step fresh stack c
  | MKey acc fresh =>
      if is_json_ws c then Some (MKey acc fresh, stack)
      else if (c =? 34)%N then Some (MKeyStr acc [] ENone, stack)
      else if (c =? 125)%N && fresh then Some (MAfter (JObj []), stack)
      else None
  | MKeyStr acc s e =>
      match string_step s e c with
      | SFail => None
      | SMore s' e' => Some (MKeyStr acc s' e', stack)
      | SDone key => Some (MColon acc key, stack)
      end
  | MColon acc key =>
      if is_json_ws c then Some (MColon acc key, stack)
      else if (c =? 58)%N then Some (MValue false, FObj acc key :: stack)
      else None
  | MStr s e =>
      match string_step s e c with
      | SFail => None
      | SMore s' e' => Some (MStr s' e', stack)
      | SDone str => Some (MAfter (JStr str), stack)
      end
  | MNum n =>
      match num_step n c with
      | Some n' => Some (MNum n', stack)
      | None =>
          if num_accepting n then after_step (num_value n) stack c else None
      end
  | MLit rest v =>
      match rest with
      | x :: rest' =>
          if (c =? x)%N
          then Some (match rest' with [] => MAfter v | _ => MLit rest' v end, stack)
          else None
      | [] => None
      end
  | MAfter v => after_step v stack c
  end.

Fixpoint parse_run (st : pstate) (s : jstring) : option pstate :=
  match s with
  | [] => Some st
  | c :: s' =>
      match parse_step st c with
      | Some st' => parse_run st' s'
      | None => None
      end
  end.

Definition parse_finish (st : pstate) : option json :=
  match st with
  | (MAfter v, []) => Some v
  | (MNum n, []) => if num_accepting n then Some (num_value n) else None
  | _ => None
  end.

(** [JSON.parse(s)]; [None] is the [SyntaxError] it throws. *)
Definition JSON_parse (s : jstring) : option json :=
  match parse_run (MValue false, []) s with
  | Some st => parse_finish st
  | None => None
  end.

(** ** The chunk decoder ([processChunk]) *)

Record Citation := mkCitation {
  id : jsval;
  url : jsval;
  title : jsval;
  publishedDate : jsval;
  author : jsval;
  text : jsval
}.

Record AnswerStreamChunk := mkChunk {
  content : jsval;
  citations : option (list Citation)
}.

Fixpoint map_result {A B} (f : A -> result B) (l : list A) : result (list B) :=
  match l with
  | [] => Ok []
  | x :: l' => y <- f x ;; ys <- map_result f l' ;; Ok (y :: ys)
  end.

(** [v.map(f)]: among parsed values only an array has a callable [map]. *)
Definition Array_map {B} (v : jsval) (f : json -> result B) : result (list B) :=
  match v with
  | Some (JArr xs) => map_result f xs
  | _ => Throw TypeError
  end.

Definition citation_of (c : json) : result Citation :=
  i <- get (Some c) "id" ;;
  u <- get (Some c) "url" ;;
  t <- get (Some c) "title" ;;
  p <- get (Some c) "publishedDate" ;;
  a <- get (Some c) "author" ;;
  x <- get (Some c) "text" ;;
  Ok (mkCitation i u t p a x).

Definition processChunk (chunkData : jsval) : result AnswerStreamChunk :=
  choices <- get chunkData "choices" ;;
  content <-
    (if truthy choices then
       first <- get0 choices ;;
       if truthy first then
         delta <- get first "delta" ;;
         if truthy delta then get delta "content" else Ok None
       else Ok None
     else Ok None) ;;
  cits <- get chunkData "citations" ;;
  citations <-
    (if truthy cits && negb (is_string cits "null")
     then cs <- Array_map cits citation_of ;; Ok (Some cs)
     else Ok None) ;;
  Ok (mkChunk content citations).

(** [chunk.content || chunk.citations]; an array is truthy whatever its
    length. *)
Definition has_payload (chunk : AnswerStreamChunk) : bool :=
  truthy (content chunk)
  || match citations chunk with Some _ => true | None => false end.

(** ** The two SSE consumers

    Both read the same way: a line that does not start with ["data: "] is
    skipped, and so is one whose payload is empty or ["[DONE]"]. *)

Definition data_payload (line : jstring) : option jstring :=
  if negb (startsWith line (lit "data: ")) then None
  else
    let jsonStr := trim (replace_data_prefix line) in
    match jsonStr with
    | [] => None
    | _ => if text_eqb jsonStr (lit "[DONE]") then None else Some jsonStr
    end.

(** The response of [fetch]: [body] is the sequence of chunks its reader
    delivers before [done]. *)
Record Response := mkResponse {
  ok : bool;
  status : number;
  body_text : jstring;
  body : option (list (list byte))
}.

(** The line reassembler the two read loops share: per read,
    [buffer += decoder.decode(value, { stream: true })],
    [lines = buffer.split("\n")], [buffer = lines.pop() || ""].
    Returns every complete line, in order, and the buffer at [done]. *)
Fixpoint reassemble (decoder : TextDecoder) (buffer : jstring)
    (reads : list (list byte)) : list jstring * jstring :=
  match reads with
  | [] => ([], buffer)
  | value :: rest =>
      let '(decoder', decoded) := decode decoder value in
      let '(lines, buffer') := pop (split_nl (buffer ++ decoded)) in
      let '(lines', final) := reassemble decoder' buffer' rest in
      (lines ++ lines', final)
  end.

(** *** [streamAnswer]: the incremental consumer *)

(** A generator driven to its end: what it yielded, how it finished
    ([None]: it returned) and how often the reader's lock was released. *)
Record generator_run := mkRun {
  yielded : list AnswerStreamChunk;
  thrown : option error;
  released : nat
}.

(** [for (const line of lines)] *)
Fixpoint stream_lines (lines : list jstring)
  : list AnswerStreamChunk * option error :=
  match lines with
  | [] => ([], None)
  | line :: rest =>
      match data_payload line with
      | None => stream_lines rest
      | Some jsonStr =>
          match JSON_parse jsonStr with
          | None => stream_lines rest
          | Some chunkData =>
              match processChunk (Some chunkData) with
              | Throw e => ([], Some e)
              | Ok chunk =>
                  let '(ys, t) := stream_lines rest in
                  (if has_payload chunk then chunk :: ys else ys, t)
              end
          end
      end
  end.

(** The block behind the loop: what is left in the buffer. *)
Definition stream_leftover (buffer : jstring) : list AnswerStreamChunk :=
  if startsWith buffer (lit "data: ") then
    let leftover := trim (replace_data_prefix buffer) in
    match leftover with
    | [] => []
    | _ =>
        if text_eqb leftover (lit "[DONE]") then []
        else
          match JSON_parse leftover with
          | None => []
          | Some chunkData =>
              match processChunk (Some chunkData) with
              | Throw _ => []
              | Ok chunk => if has_payload chunk then [chunk] else []
              end
          end
    end
  else [].

(** [while (true)] over the reads of the body. *)
Fixpoint stream_loop (decoder : TextDecoder) (buffer : jstring)
    (reads : list (list byte)) : list AnswerStreamChunk * option error :=
  match reads with
  | [] => (stream_leftover buffer, None)
  | value :: rest =>
      let '(decoder', decoded) := decode decoder value in
      let '(lines, buffer') := pop (split_nl (buffer ++ decoded)) in
      match stream_lines lines with
      | (ys, Some e) => (ys, Some e)
      | (ys, None) =>
          let '(ys', t) := stream_loop decoder' buffer' rest in
          (ys ++ ys', t)
      end
  end.

Definition no_body_message : json :=
  JStr (lit "No response body available for streaming.").

Definition streamAnswer (response : Response) (now : jstring) : generator_run :=
  if negb (ok response) then
    mkRun [] (Some (ExaErr (mkExaError (JStr (body_text response))
                               (status response) (Some now) None))) 0
  else
    match body response with
    | None =>
        mkRun [] (Some (ExaErr (mkExaError no_body_message (num 500)
                                  (Some now) None))) 0
    | Some reads =>
        let '(ys, t) := stream_loop new_TextDecoder [] reads in
        mkRun ys t 1
    end.

(** *** [parseSSEStream]: the blocking consumer *)

(** What the executor of the promise does to the outside. *)
Inductive event :=
| Resolve (v : jsval)
| Reject (e : error)
| ReleaseLock.

Inductive control :=
| Fallthrough
| Returned (evs : list event)
| Raised (e : error).

Definition unknown_error_message : json := JStr (lit "Unknown error").

Definition stream_ended_message : json :=
  JStr (lit "Stream ended without a completion event.").

(** [chunk.error?.message || "Unknown error"] *)
Definition error_message (chunk : jsval) : result json :=
  err <- get chunk "error" ;;
  m <- (match err with
        | None | Some JNull => Ok None
        | _ => get err "message"
        end) ;;
  Ok (match m with
      | Some j => if truthy m then j else unknown_error_message
      | None => unknown_error_message
      end).

(** [switch (chunk.tag)] *)
Definition on_chunk (now : jstring) (chunk : jsval) : control :=
  match get chunk "tag" with
  | Throw e => Raised e
  | Ok tag =>
      if is_string tag "complete" then
        match get chunk "data" with
        | Ok data => Returned [ReleaseLock; Resolve data]
        | Throw e => Raised e
        end
      else if is_string tag "error" then
        match error_message chunk with
        | Ok msg =>
            Returned [ReleaseLock;
                      Reject (ExaErr (mkExaError msg
                                HttpStatusCode.InternalServerError
                                (Some now) None))]
        | Throw e => Raised e
        end
      else Fallthrough
  end.

(** [for (const line of lines)] *)
Fixpoint sse_lines (now : jstring) (lines : list jstring) : control :=
  match lines with
  | [] => Fallthrough
  | line :: rest =>
      match data_payload line with
      | None => sse_lines now rest
      | Some jsonStr =>
          match JSON_parse jsonStr with
          | None => sse_lines now rest
          | Some chunk =>
              match on_chunk now (Some chunk) with
              | Fallthrough => sse_lines now rest
              | c => c
              end
          end
      end
  end.

(** The [try] block: the read loop and the rejection behind it. *)
Fixpoint sse_loop (now : jstring) (decoder : TextDecoder) (buffer : jstring)
    (reads : list (list byte)) : control :=
  match reads with
  | [] =>
      Returned [Reject (ExaErr (mkExaError stream_ended_message
                                  HttpStatusCode.InternalServerError
                                  (Some now) None))]
  | value :: rest =>
      let '(decoder', decoded) := decode decoder value in
      let '(lines, buffer') := pop (split_nl (buffer ++ decoded)) in
      match sse_lines now lines with
      | Fallthrough => sse_loop now decoder' buffer' rest
      | c => c
      end
  end.

(** The executor: [try], [catch (err) { reject(err) }], [finally]. *)
Definition sse_executor (now : jstring) (reads : list (list byte)) : list event :=
  match sse_loop now new_TextDecoder [] reads with
  | Returned evs => evs ++ [ReleaseLock]
  | Raised e => [Reject e; ReleaseLock]
  | Fallthrough => [ReleaseLock]
  end.

Inductive promise (A : Type) :=
| Pending
| Fulfilled (v : A)
| Rejected (e : error).
Arguments Pending {A}.
Arguments Fulfilled {A} v.
Arguments Rejected {A} e.

(** A promise keeps the first settlement. *)
Fixpoint settle (evs : list event) : promise jsval :=
  match evs with
  | [] => Pending
  | Resolve v :: _ => Fulfilled v
  | Reject e :: _ => Rejected e
  | ReleaseLock :: rest => settle rest
  end.

Definition settlements (evs : list event) : list event :=
  filter (fun ev => match ev with ReleaseLock => false | _ => true end) evs.

Definition parseSSEStream (response : Response) (now : jstring) : promise jsval :=
  match body response with
  | None =>
      Rejected (ExaErr (mkExaError no_body_message (num 500) (Some now) None))
  | Some reads => settle (sse_executor now reads)
  end.

(** ** Arbitrary JavaScript values

    The options handed to the client and the values a [catch] receives are
    not parsed JSON: they may be [undefined], and they may be functions,
    which carry properties like any object. *)

Inductive value :=
| VUndefined
| VNull
| VBool (b : bool)
| VNum (n : number)
| VStr (s : jstring)
| VArr (xs : list value)
| VObj (props : list (jstring * value))
| VFun (props : list (jstring * value)).

Definition vtruthy (v : value) : bool :=
  match v with
  | VUndefined | VNull => false
  | VBool b => b
  | VNum n => number_truthy n
  | VStr s => match s with [] => false | _ => true end
  | VArr _ | VObj _ | VFun _ => true
  end.

Fixpoint vlookup (k : jstring) (props : list (jstring * value)) : value :=
  match props with
  | [] => VUndefined
  | (k', v) :: rest =>
      match vlookup k rest with
      | VUndefined => if text_eqb k k' then v else VUndefined
      | w => w
      end
  end.

(** [v.k] on a value that is neither [null] nor [undefined], for a name no
    prototype defines. *)
Definition prop (v : value) (k : string) : value :=
  match v with
  | VObj props | VFun props => vlookup (lit k) props
  | _ => VUndefined
  end.

(** [v?.k] *)
Definition opt_prop (v : value) (k : string) : value :=
  match v with
  | VUndefined | VNull => VUndefined
  | _ => prop v k
  end.

(** [a ?? b] *)
Definition nullish (a b : value) : value :=
  match a with
  | VUndefined | VNull => b
  | _ => a
  end.

(** [typeof v === "object"] *)
Definition typeof_object (v : value) : bool :=
  match v with
  | VNull | VArr _ | VObj _ => true
  | _ => false
  end.

(** ** [answer]: the non-streaming call

    The exchange with the server is [this.request]; it acts on a world the
    embedding does not look into.  [isZodSchema] and [zodToJsonSchema] come
    from [src/zod-utils.ts], which is not among the sources. *)

Section Answer.

Variable world : Type.
Variable response_value : Type.
Variable request :
  jstring -> jstring -> value -> world -> promise response_value * world.
Variable isZodSchema : value -> bool.
Variable zodToJsonSchema : value -> value.

Definition streaming_hint : json :=
  JStr (lit "For streaming responses, please use streamAnswer() instead:"
        ++ [10; 10]%N
        ++ lit "for await (const chunk of exa.streamAnswer(query)) {"
        ++ [10]%N
        ++ lit "  // Handle chunks"
        ++ [10]%N
        ++ lit "}").

Definition answer (query options : value) (w : world)
  : promise response_value * world :=
  if vtruthy (opt_prop options "stream") then
    (Rejected (ExaErr (mkExaError streaming_hint HttpStatusCode.BadRequest
                         None None)), w)
  else
    let outputSchema := opt_prop options "outputSchema" in
    let outputSchema :=
      if vtruthy outputSchema && isZodSchema outputSchema
      then zodToJsonSchema outputSchema else outputSchema in
    let requestBody :=
      VObj [(lit "query", query);
            (lit "stream", VBool false);
            (lit "text", nullish (opt_prop options "text") (VBool false));
            (lit "model", nullish (opt_prop options "model") (VStr (lit "exa")));
            (lit "systemPrompt", opt_prop options "systemPrompt");
            (lit "outputSchema", outputSchema);
            (lit "userLocation", opt_prop options "userLocation")] in
    request (lit "/answer") (lit "POST") requestBody w.

End Answer.

(** A world that records the requests made on it. *)
Definition recording_request (endpoint method : jstring) (body : value)
    (w : list (jstring * jstring * value))
  : promise value * list (jstring * jstring * value) :=
  (Fulfilled body, w ++ [(endpoint, method, body)]).

(** ** [toExaError]: the error normaliser of the Effect wrapper *)

(** What a [catch] receives: an instance of [ExaError], or anything else. *)
Inductive caught :=
| Instance (e : ExaError)
| Other (v : value).

Definition is_digit (c : N) : bool := ((48 <=? c) && (c <=? 57))%N.

Fixpoint digits_value (acc : Z) (s : jstring) : Z :=
  match s with
  | c :: s' =>
      if is_digit c then digits_value (acc * 10 + Z.of_N (c - 48))%Z s' else acc
  | [] => acc
  end.

(** [parseInt(s, 10)]: leading white space, a sign, then the longest run of
    decimal digits; [None] is [NaN].  The integer is kept exact. *)
Definition parseInt (s : jstring) : option Z :=
  let s := drop_space s in
  let '(neg, s) :=
    match s with
    | c :: s' =>
        if (c =? 45)%N then (true, s')
        else if (c =? 43)%N then (false, s') else (false, s)
    | [] => (false, s)
    end in
  match s with
  | c :: _ =>
      if is_digit c
      then Some (if neg then (- digits_value 0 s)%Z else digits_value 0 s)
      else None
  | [] => None
  end.

Definition coerceStatus (val : value) : option number :=
  match val with
  | VNum n => Some n
  | VStr s =>
      match parseInt s with
      | Some z => Some (num z)
      | None => None
      end
  | _ => None
  end.

(** [a ?? b] on [number | undefined] *)
Definition or_else {A} (a b : option A) : option A :=
  match a with
  | Some _ => a
  | None => b
  end.

Section Wrapper.

(** [String(e)], the conversion of the platform. *)
Variable String_ : value -> jstring.

Definition toExaError (e : caught) : ExaError :=
  match e with
  | Instance err => err
  | Other v =>
      if vtruthy v && typeof_object v then
        let objStatus :=
          or_else (coerceStatus (prop v "status"))
                  (coerceStatus (prop v "statusCode")) in
        let status :=
          match objStatus with
          | Some n => n
          | None =>
              let response := prop v "response" in
              if vtruthy response && typeof_object response then
                match or_else (coerceStatus (prop response "status"))
                              (coerceStatus (prop response "statusCode")) with
                | Some n => n
                | None => num 500
                end
              else num 500
          end in
        let message :=
          match prop v "message" with
          | VStr m => m
          | _ => String_ v
          end in
        mkExaError (JStr message) status None None
      else mkExaError (JStr (String_ v)) (num 500) None None
  end.





(** *** The Effect runtime

    The combinators of the [effect] package the wrapper is built from, by
    their contract.  An effect that has run is its [Exit]; a failure has a
    [Cause]: an expected error ([Fail]), a defect ([Die]), an interruption,
    or two causes one after the other. *)

Inductive Cause :=
| Fail (e : ExaError)
| Die (defect : caught)
| Interrupt
| Sequential (left right : Cause).

Inductive Exit (A : Type) :=
| Success (a : A)
| Failure (c : Cause).
Arguments Success {A} a.
Arguments Failure {A} c.

(** A promise the wrapper awaits, once settled. *)
Inductive settled (A : Type) :=
| Resolves (a : A)
| Rejects (reason : caught).
Arguments Resolves {A} a.
Arguments Rejects {A} reason.

(** [Effect.promise]: no error channel; a rejection is a defect. *)
Definition Effect_promise {A} (p : settled A) : Exit A :=
  match p with
  | Resolves a => Success a
  | Rejects reason => Failure (Die reason)
  end.

(** [Effect.tryPromise({ try, catch })]: a rejection fails with what
    [catch] makes of the reason. *)
Definition Effect_tryPromise {A} (catch : caught -> ExaError)
    (p : settled A) : Exit A :=
  match p with
  | Resolves a => Success a
  | Rejects reason => Failure (Fail (catch reason))
  end.

(** Closing a scope runs its finalizers whatever the exit; the failure of
    a finalizer is added behind the cause of the exit. *)
Definition then_finalizer {A} (main : Exit A) (fin : Exit unit) : Exit A :=
  match main, fin with
  | _, Success _ => main
  | Success _, Failure c => Failure c
  | Failure c1, Failure c2 => Failure (Sequential c1 c2)
  end.

(** [tryPromiseExa] *)
Definition tryPromiseExa {A} (thunk : settled A) : Exit A :=
  Effect_tryPromise toExaError thunk.

(** *** [streamFromAsyncGenerator]

    An async generator is an object with state: [next] settles with a
    value, with [done], or rejects; [return], when the object has one,
    settles too.  Every call made on the object is logged. *)

Inductive IteratorResult (A : Type) :=
| IterValue (a : A)
| IterDone.
Arguments IterValue {A} a.
Arguments IterDone {A}.

Record AsyncGenerator (A S : Type) := mkGenerator {
  next : S -> settled (IteratorResult A) * S;
  return_ : option (S -> settled unit * S)
}.

Inductive call :=
| CallNext
| CallReturn.

(** How the consumer of the stream stops when the source has not ended
    before: it has taken what it asked for, it fails, or its scope is torn
    down. *)
Inductive stop :=
| Enough
| DownstreamFails (e : ExaError)
| TornDown.

Record Consumer := mkConsumer {
  budget : nat;
  at_budget : stop
}.

Definition take (n : nat) : Consumer := mkConsumer n Enough.

Section Adapter.

Variables A S : Type.
Variable gen : AsyncGenerator A S.

(** Whether [Stream.fromAsyncIterable] finalizes the iterator itself.
    The [effect] package does: it acquires the iterator with a release
    that calls [iterator.return] when there is one. *)
Variable library_releases : bool.

(** [async () => { await gen.return?.(undefined); }] *)
Definition release (s : S) (log : list call)
  : settled unit * S * list call :=
  match return_ gen with
  | None => (Resolves tt, s, log)
  | Some ret => let '(r, s') := ret s in (r, s', log ++ [CallReturn])
  end.

(** The pulls of [Stream.fromAsyncIterable(gen, toExaError)]: one
    [gen.next()] per element asked for. *)
Fixpoint pull (n : nat) (s : S) (log : list call)
  : list A * Exit unit * S * list call :=
  match n with
  | O => ([], Success tt, s, log)
  | Datatypes.S n' =>
      let '(r, s') := next gen s in
      let log' := log ++ [CallNext] in
      match Effect_tryPromise toExaError r with
      | Failure c => ([], Failure c, s', log')
      | Success IterDone => ([], Success tt, s', log')
      | Success (IterValue a) =>
          let '(items, e, s'', log'') := pull n' s' log' in
          (a :: items, e, s'', log'')
      end
  end.

Record stream_run := mkStreamRun {
  exit : Exit (list A);
  calls : list call;
  final_state : S
}.

(** The stream consumed: the pulls, and how the consumer leaves when
    the source has neither ended nor failed within its budget. *)
Definition consume (s0 : S) (c : Consumer)
  : Exit (list A) * S * list call :=
  let '(items, pulled, s1, log1) := pull (budget c) s0 [] in
  (match pulled with
   | Failure cause => Failure cause
   | Success _ =>
       if Nat.eqb (List.length items) (budget c) then
         match at_budget c with
         | Enough => Success items
         | DownstreamFails e => Failure (Fail e)
         | TornDown => Failure Interrupt
         end
       else Success items
   end, s1, log1).

(** The stream of [streamFromAsyncGenerator(() => gen)] run by a
    consumer.  [Stream.unwrapScoped] keeps the scope of
    [Effect.acquireRelease] open while the stream inside is consumed;
    the scopes close innermost first: the one of
    [Stream.fromAsyncIterable], then the one whose release is
    [Effect.promise] of the closure above. *)
Definition streamFromAsyncGenerator (s0 : S) (c : Consumer) : stream_run :=
  let '(main, s1, log1) := consume s0 c in
  let '(fin1, s2, log2) :=
    if library_releases then
      let '(r, s, log) := release s1 log1 in (Effect_promise r, s, log)
    else (Success tt, s1, log1) in
  let '(r, s3, log3) := release s2 log2 in
  mkStreamRun (then_finalizer (then_finalizer main fin1) (Effect_promise r))
              log3 s3.

End Adapter.

(** The generator of the test suite ([createMockAsyncGenerator]): it
    yields the values in turn; its state is the index and the number of
    calls of [return]. *)
Definition mock_generator {A} (values : list A) (return_result : settled unit)
  : AsyncGenerator A (nat * nat) :=
  mkGenerator
    (fun '(index, spied) =>
       match nth_error values index with
       | Some v => (Resolves (IterValue v), (Datatypes.S index, spied))
       | None => (Resolves IterDone, (index, spied))
       end)
    (Some (fun '(index, spied) => (return_result, (index, Datatypes.S spied)))).

Definition count_returns (log : list call) : nat :=
  List.length (filter (fun c => match c with CallReturn => true | _ => false end) log).



(** *** [pollUntilFinished] of the research service *)

Inductive ResearchStatus :=
| StatusPending
| StatusRunning
| StatusCompleted
| StatusFailed
| StatusCanceled.

Record Research := mkResearch {
  researchId : jstring;
  research_status : ResearchStatus
}.

Definition is_finished (st : ResearchStatus) : bool :=
  match st with
  | StatusCompleted | StatusFailed | StatusCanceled => true
  | _ => false
  end.

(** One turn of the loop as the world answers it: the record fetched and
    the time elapsed when the timeout is looked at, or the rejection of
    the fetch. *)
Inductive observation :=
| Observed (r : Research) (elapsed : Z)
| FetchRejects (reason : caught).

Definition timeout_error (id : jstring) (elapsed : Z) : caught :=
  Other (VObj [(lit "name", VStr (lit "Error"));
               (lit "message", VStr (lit "Polling timeout: research " ++ id));
               (lit "elapsed", VNum (num elapsed))]).

(** Modelled from the spec: [ResearchClient.pollUntilFinished] of
    [src/research/client.ts], which is not among the sources.  The
    terminal-state poller: fetch the record; a terminal status,
    ["failed"] and ["canceled"] included, resolves with the record; else
    the elapsed time is held against the timeout, which rejects when it is
    exceeded; else the loop sleeps and repeats.  A fetch that fails aborts
    the wait.  [None]: the wait is still going on when the observations
    end. *)
Fixpoint client_pollUntilFinished (id : jstring) (timeoutMs : Z)
    (world : list observation) : option (settled Research) :=
  match world with
  | [] => None
  | FetchRejects reason :: _ => Some (Rejects reason)
  | Observed r elapsed :: rest =>
      if is_finished (research_status r) then Some (Resolves r)
      else if (timeoutMs <? elapsed)%Z
      then Some (Rejects (timeout_error id elapsed))
      else client_pollUntilFinished id timeoutMs rest
  end.

(** [pollUntilFinished] of [buildResearchService] *)
Definition pollUntilFinished (id : jstring) (timeoutMs : Z)
    (world : list observation) : option (Exit Research) :=
  match client_pollUntilFinished id timeoutMs world with
  | Some p => Some (tryPromiseExa p)
  | None => None
  end.

Definition still_running (timeoutMs : Z) (o : observation) : Prop :=
  match o with
  | Observed r elapsed =>
      is_finished (research_status r) = false /\ (elapsed <= timeoutMs)%Z
  | FetchRejects _ => False
  end.

End Wrapper.

Arguments Success {A} a.
Arguments Failure {A} c.
Arguments Resolves {A} a.
Arguments Rejects {A} reason.
Arguments IterValue {A} a.
Arguments IterDone {A}.


(** The text the decoder has produced when the body is exhausted. *)
Definition decoded (reads : list (list byte)) : jstring :=
  snd (decode new_TextDecoder (List.concat reads)).

(** The blocking consumer as the specification words it: the first payload
    tagged ["complete"] or ["error"] decides, every other payload is passed
    over, and a body without one ends in the protocol error. *)
Definition field (j : json) (k : string) : jsval :=
  match j with
  | JObj props => lookup (lit k) props
  | _ => None
  end.

Definition message_or_default (j : json) : json :=
  match field j "error" with
  | Some err =>
      match field err "message" with
      | Some m => if truthy (Some m) then m else unknown_error_message
      | None => unknown_error_message
      end
  | None => unknown_error_message
  end.

Fixpoint blocking_spec (now : jstring) (ps : list json) : promise jsval :=
  match ps with
  | [] =>
      Rejected (ExaErr (mkExaError stream_ended_message
                          HttpStatusCode.InternalServerError (Some now) None))
  | j :: rest =>
      if is_string (field j "tag") "complete" then Fulfilled (field j "data")
      else if is_string (field j "tag") "error" then
        Rejected (ExaErr (mkExaError (message_or_default j)
                            HttpStatusCode.InternalServerError (Some now) None))
      else blocking_spec now rest
  end.

(** ** Reference readings of the two consumers

    What each consumer does to the complete lines and to the text left in
    the buffer, without the reads; used to state the properties. *)

Definition stream_of_lines (lines : list jstring) (final : jstring)
  : list AnswerStreamChunk * option error :=
  match stream_lines lines with
  | (ys, Some e) => (ys, Some e)
  | (ys, None) => (ys ++ stream_leftover final, None)
  end.

Definition sse_of_lines (now : jstring) (lines : list jstring) : control :=
  match sse_lines now lines with
  | Fallthrough =>
      Returned [Reject (ExaErr (mkExaError stream_ended_message
                                  HttpStatusCode.InternalServerError
                                  (Some now) None))]
  | c => c
  end.

(** A line the consumers take for the end marker. *)
Definition is_done_line (line : jstring) : bool :=
  startsWith line (lit "data: ")
  && text_eqb (trim (replace_data_prefix line)) (lit "[DONE]").

(** The parsed payloads of the lines that are forwarded. *)
Fixpoint payloads (lines : list jstring) : list json :=
  match lines with
  | [] => []
  | line :: rest =>
      match data_payload line with
      | None => payloads rest
      | Some jsonStr =>
          match JSON_parse jsonStr with
          | None => payloads rest
          | Some j => j :: payloads rest
          end
      end
  end.

Definition stream_ended (now : jstring) : error :=
  ExaErr (mkExaError stream_ended_message
            HttpStatusCode.InternalServerError (Some now) None).

Definition is_settlement (ev : event) : bool :=
  match ev with ReleaseLock => false | _ => true end.

(** Where a yielded chunk comes from. *)
Definition chunk_of_line (line : jstring) (chunk : AnswerStreamChunk) : Prop :=
  exists jsonStr chunkData,
    data_payload line = Some jsonStr
    /\ JSON_parse jsonStr = Some chunkData
    /\ processChunk (Some chunkData) = Ok chunk
    /\ has_payload chunk = true.

(** ** Concrete transcripts

    Written with ['] for the double quote and [|] for the line feed. *)

Definition transcript (s : string) : list byte :=
  map (fun b => match b with x27 => x22 | x7c => x0a | _ => b end)
      (list_byte_of_string s).

Definition json_text (s : string) : jstring :=
  map (fun c => if (c =? 39)%N then 34%N else c) (lit s).

(** One byte per read. *)
Definition bytewise (bs : list byte) : list (list byte) :=
  map (fun b => [b]) bs.

Definition ok_response (reads : list (list byte)) : Response :=
  mkResponse true (num 200) [] (Some reads).

(** ** Plain objects: reading, spread and rest

    An options object is its own enumerable properties in insertion order; a
    key is read at its first entry. *)

Definition object := list (jstring * value).

Fixpoint own (k : jstring) (o : object) : option value :=
  match o with
  | [] => None
  | (k', v) :: rest => if text_eqb k k' then Some v else own k rest
  end.

(** [o.k] *)
Definition read (o : object) (k : string) : value :=
  match own (lit k) o with
  | Some v => v
  | None => VUndefined
  end.

(** [o[k] = v]: an existing property keeps its place. *)
Fixpoint set_prop (k : jstring) (v : value) (o : object) : object :=
  match o with
  | [] => [(k, v)]
  | (k', v') :: rest =>
      if text_eqb k k' then (k, v) :: rest else (k', v') :: set_prop k v rest
  end.

Definition without (k : jstring) (o : object) : object :=
  filter (fun kv => negb (text_eqb (fst kv) k)) o.

(** The properties of [o], each key once. *)
Fixpoint entries (o : object) : object :=
  match o with
  | [] => []
  | (k, v) :: rest => (k, v) :: without k (entries rest)
  end.

(** [{ ...target, ...source }] *)
Definition spread (target source : object) : object :=
  fold_left (fun acc kv => set_prop (fst kv) (snd kv) acc) (entries source) target.

(** [const { k1, ..., kn, ...rest } = o] *)
Definition omit (ks : list string) (o : object) : object :=
  fold_right (fun k acc => without (lit k) acc) (entries o) ks.

(** An optional options argument: [None] is [undefined]. *)
Definition Options := option object.

Definition option_own (k : jstring) (options : Options) : option value :=
  match options with
  | Some o => own k o
  | None => None
  end.

(** [{ ...target, ...options }] *)
Definition spread_options (target : object) (options : Options) : object :=
  match options with
  | Some o => spread target o
  | None => target
  end.

Definition is_undefined (v : value) : bool :=
  match v with
  | VUndefined => true
  | _ => false
  end.

(** [v.k] on a value, for a name no prototype defines. *)
Definition member (v : value) (k : string) : value :=
  match v with
  | VObj o | VFun o => read o k
  | _ => VUndefined
  end.

(** ** The request builders of the client *)

Definition DEFAULT_MAX_CHARACTERS : Z := 10000.

(** [{ text: { maxCharacters: DEFAULT_MAX_CHARACTERS } }] *)
Definition default_contents : object :=
  [(lit "text", VObj [(lit "maxCharacters", VNum (num DEFAULT_MAX_CHARACTERS))])].

(** [contents === false || contents === null || contents === undefined] *)
Definition contents_disabled (v : value) : bool :=
  match v with
  | VBool false | VNull | VUndefined => true
  | _ => false
  end.

Definition contents_keys : list string :=
  ["text"; "highlights"; "summary"; "subpages"; "subpageTarget"; "extras";
   "livecrawl"; "livecrawlTimeout"; "maxAgeHours"; "context"]%string.

(** The urls argument of [getContents]: missing, one string, or an array. *)
Inductive Urls :=
| NoUrls
| OneUrl (s : jstring)
| ManyUrls (xs : list value).

Definition must_provide_url : json :=
  JStr (lit "Must provide at least one URL").

(** [result.url] inside [urls.map] *)
Definition url_of (r : value) : result value :=
  match r with
  | VUndefined | VNull => Throw TypeError
  | _ => Ok (member r "url")
  end.

Section Client.

Variable world : Type.
Variable response_value : Type.
Variable request :
  jstring -> jstring -> value -> world -> promise response_value * world.
Variable isZodSchema : value -> bool.
Variable zodToJsonSchema : value -> value.

Definition search (query : value) (options : Options) (w : world)
  : promise response_value * world :=
  match option_own (lit "contents") options with
  | None =>
      request (lit "/search") (lit "POST")
        (VObj (set_prop (lit "contents") (VObj default_contents)
                 (spread_options [(lit "query", query)] options))) w
  | Some contents =>
      if contents_disabled contents then
        let restOptions :=
          match options with
          | Some o => omit ["contents"%string] o
          | None => []
          end in
        request (lit "/search") (lit "POST")
          (VObj (spread [(lit "query", query)] restOptions)) w
      else
        request (lit "/search") (lit "POST")
          (VObj (spread_options [(lit "query", query)] options)) w
  end.

Definition findSimilar (url : value) (options : Options) (w : world)
  : promise response_value * world :=
  match option_own (lit "contents") options with
  | None =>
      request (lit "/findSimilar") (lit "POST")
        (VObj (set_prop (lit "contents") (VObj default_contents)
                 (spread_options [(lit "url", url)] options))) w
  | Some contents =>
      if contents_disabled contents then
        let restOptions :=
          match options with
          | Some o => omit ["contents"%string] o
          | None => []
          end in
        request (lit "/findSimilar") (lit "POST")
          (VObj (spread [(lit "url", url)] restOptions)) w
      else
        request (lit "/findSimilar") (lit "POST")
          (VObj (spread_options [(lit "url", url)] options)) w
  end.

(** The [summary] given to the API: a Zod schema inside it is converted. *)
Definition summary_option (summary : value) : value :=
  match summary with
  | VObj s =>
      match own (lit "schema") s with
      | Some schema =>
          if vtruthy schema && isZodSchema schema
          then VObj (set_prop (lit "schema") (zodToJsonSchema schema) (spread [] s))
          else summary
      | None => summary
      end
  | _ => summary
  end.

(** [if (v !== undefined) contentsOptions.k = v] *)
Definition assign_defined (k : string) (v : value) (o : object) : object :=
  if is_undefined v then o else set_prop (lit k) v o.

Definition extractContentsOptions (options : object) : object * object :=
  let text := read options "text" in
  let highlights := read options "highlights" in
  let summary := read options "summary" in
  let extras := read options "extras" in
  let c := [] in
  let c :=
    if is_undefined text && is_undefined summary
       && is_undefined highlights && is_undefined extras
    then set_prop (lit "text") (VBool true) c else c in
  let c := assign_defined "text" text c in
  let c := assign_defined "highlights" highlights c in
  let c :=
    if is_undefined summary then c
    else set_prop (lit "summary") (summary_option summary) c in
  let c := assign_defined "subpages" (read options "subpages") c in
  let c := assign_defined "subpageTarget" (read options "subpageTarget") c in
  let c := assign_defined "extras" extras c in
  let c := assign_defined "livecrawl" (read options "livecrawl") c in
  let c := assign_defined "livecrawlTimeout" (read options "livecrawlTimeout") c in
  let c := assign_defined "maxAgeHours" (read options "maxAgeHours") c in
  let c := assign_defined "context" (read options "context") c in
  (c, omit contents_keys options).

(** The contents and the rest the two deprecated calls send. *)
Definition contents_and_rest (options : Options) : object * object :=
  match options with
  | None => (default_contents, [])
  | Some o => extractContentsOptions o
  end.

Definition searchAndContents (query : value) (options : Options) (w : world)
  : promise response_value * world :=
  let '(contentsOptions, restOptions) := contents_and_rest options in
  request (lit "/search") (lit "POST")
    (VObj (spread [(lit "query", query); (lit "contents", VObj contentsOptions)]
                  restOptions)) w.

Definition findSimilarAndContents (url : value) (options : Options) (w : world)
  : promise response_value * world :=
  let '(contentsOptions, restOptions) := contents_and_rest options in
  request (lit "/findSimilar") (lit "POST")
    (VObj (spread [(lit "url", url); (lit "contents", VObj contentsOptions)]
                  restOptions)) w.

(** [!urls || (Array.isArray(urls) && urls.length === 0)] *)
Definition no_urls (urls : Urls) : bool :=
  match urls with
  | NoUrls | OneUrl [] | ManyUrls [] => true
  | _ => false
  end.

Definition requestUrls (urls : Urls) : result (list value) :=
  match urls with
  | NoUrls => Ok []
  | OneUrl s => Ok [VStr s]
  | ManyUrls xs =>
      match xs with
      | VStr _ :: _ => Ok xs
      | _ => map_result url_of xs
      end
  end.

Definition getContents (urls : Urls) (options : Options) (w : world)
  : promise response_value * world :=
  if no_urls urls then
    (Rejected (ExaErr (mkExaError must_provide_url HttpStatusCode.BadRequest
                         None None)), w)
  else
    match requestUrls urls with
    | Throw e => (Rejected e, w)
    | Ok us =>
        request (lit "/contents") (lit "POST")
          (VObj (spread_options [(lit "urls", VArr us)] options)) w
    end.

End Client.

(** *** What the request builders are held against *)

(** No key is given twice. *)
Fixpoint unique (o : object) : Prop :=
  match o with
  | [] => True
  | (k, _) :: rest => own k rest = None /\ unique rest
  end.

(** The field a search-like call sends under key [k]: the [contents] rule,
    then the options, then the first argument under its own name. *)
Definition sent_field (name : string) (arg : value) (options : Options)
    (k : jstring) : option value :=
  if text_eqb k (lit "contents") then
    match option_own (lit "contents") options with
    | None => Some (VObj default_contents)
    | Some c => if contents_disabled c then None else Some c
    end
  else
    match option_own k options with
    | Some v => Some v
    | None => if text_eqb k (lit name) then Some arg else None
    end.

Definition is_contents_key (k : jstring) : bool :=
  existsb (fun k' => text_eqb k (lit k')) contents_keys.

Definition is_object (v : value) : bool :=
  match v with
  | VObj _ => true
  | _ => false
  end.

(** The contents [extractContentsOptions] builds, key by key: a contents
    option that is not [undefined] is taken over, [summary] with its schema
    converted, and [text] is [true] when none of [text], [summary],
    [highlights], [extras] is given. *)
Definition contents_field (summary_option : value -> value) (options : object)
    (k : jstring) : option value :=
  if text_eqb k (lit "text") then
    if is_undefined (read options "text") then
      if is_undefined (read options "summary")
         && is_undefined (read options "highlights")
         && is_undefined (read options "extras")
      then Some (VBool true) else None
    else Some (read options "text")
  else if text_eqb k (lit "summary") then
    if is_undefined (read options "summary") then None
    else Some (summary_option (read options "summary"))
  else if is_contents_key k then
    match own k options with
    | Some v => if is_undefined v then None else Some v
    | None => None
    end
  else None.

(** [o.k !== undefined] *)
Definition given (o : object) (k : string) : bool :=
  negb (is_undefined (read o k)).

(** ** [request]: one exchange with the API *)

(** [s.includes(sub)] *)
Fixpoint includes (s sub : jstring) : bool :=
  startsWith s sub
  || match s with
     | [] => false
     | _ :: s' => includes s' sub
     end.

(** A response with the header [request] looks at. *)
Record HttpResponse := mkHttpResponse {
  http : Response;
  content_type : option jstring
}.

(** What is handed to [fetch]. *)
Record FetchInit := mkFetchInit {
  fetch_url : jstring;
  fetch_method : jstring;
  fetch_headers : object;
  fetch_body : option jstring
}.

(** How a call of [request] ends when it does not resolve: with something
    thrown on the way, with the [SyntaxError] of [response.json()], or with
    [new ExaError(message, status, timestamp, path)]. *)
Inductive failure :=
| Thrown (e : error)
| SyntaxError
| HttpError (message : json) (status : number) (timestamp path : json).

Inductive outcome :=
| Done (v : jsval)
| Failed (f : failure)
| Unsettled.

Definition outcome_of_promise (p : promise jsval) : outcome :=
  match p with
  | Fulfilled v => Done v
  | Rejected e => Failed (Thrown e)
  | Pending => Unsettled
  end.

(** The client: [this.baseURL] and the entries of [this.headers]. *)
Record Exa := mkExa {
  baseURL : jstring;
  headers : object
}.

Section Request.

Variable world : Type.
Variable fetchImpl : FetchInit -> world -> promise HttpResponse * world.
(** [JSON.stringify], [String] and the serialisation of [URLSearchParams],
    of the platform. *)
Variable JSON_stringify : value -> jstring.
Variable String_ : value -> jstring.
Variable URLSearchParams_toString : list (jstring * jstring) -> jstring.
(** [String(j)] and [j > 0] on a parsed value that is not a string. *)
Variable String_json : json -> jstring.
Variable greater_than_zero : jsval -> bool.

(** The pairs appended to the search parameters: one per item of an array,
    none for [undefined]. *)
Definition search_params (params : object) : list (jstring * jstring) :=
  flat_map (fun kv =>
              match snd kv with
              | VArr items => map (fun item => (fst kv, String_ item)) items
              | VUndefined => []
              | v => [(fst kv, String_ v)]
              end)
           (entries params).

Definition request_url (client : Exa) (endpoint : jstring) (params : Options)
  : jstring :=
  match params with
  | Some p =>
      match entries p with
      | [] => baseURL client ++ endpoint
      | _ => baseURL client ++ endpoint ++ lit "?"
             ++ URLSearchParams_toString (search_params p)
      end
  | None => baseURL client ++ endpoint
  end.

Definition request_init (client : Exa) (endpoint method : jstring)
    (body : value) (params extra_headers : Options) : FetchInit :=
  mkFetchInit (request_url client endpoint params) method
    (spread_options (spread [] (headers client)) extra_headers)
    (if vtruthy body then Some (JSON_stringify body) else None).

Definition to_string (j : json) : jstring :=
  match j with
  | JStr s => s
  | _ => String_json j
  end.

(** [message.length > 0] *)
Definition has_length (j : json) : bool :=
  match j with
  | JStr s => match s with [] => false | _ => true end
  | JArr xs => match xs with [] => false | _ => true end
  | JObj props => greater_than_zero (lookup (lit "length") props)
  | _ => false
  end.

(** [v || d] *)
Definition or_default (v : jsval) (d : json) : json :=
  match v with
  | Some j => if truthy v then j else d
  | None => d
  end.

(** The error thrown for a response that is not [ok], from its parsed
    body. *)
Definition error_of_body (endpoint now : jstring) (status : number)
    (errorData : json) : failure :=
  match errorData with
  | JNull => Thrown TypeError
  | JBool _ | JNum _ | JStr _ =>
      (* [errorData.statusCode = response.status] on a primitive, in strict
         code *)
      Thrown TypeError
  | JArr _ =>
      HttpError unknown_error_message status (JStr now) (JStr endpoint)
  | JObj props =>
      let message := or_default (lookup (lit "error") props) unknown_error_message in
      let message :=
        if truthy (lookup (lit "message") props) then
          JStr (to_string message
                ++ (if has_length message then lit ". " else [])
                ++ match lookup (lit "message") props with
                   | Some m => to_string m
                   | None => []
                   end)
        else message in
      HttpError message status
        (or_default (lookup (lit "timestamp") props) (JStr now))
        (or_default (lookup (lit "path") props) (JStr endpoint))
  end.

(** [response.json()] *)
Definition response_json (r : HttpResponse) : outcome :=
  match JSON_parse (body_text (http r)) with
  | Some j => Done (Some j)
  | None => Failed SyntaxError
  end.

Definition on_response (endpoint now : jstring) (r : HttpResponse) : outcome :=
  if negb (ok (http r)) then
    match JSON_parse (body_text (http r)) with
    | None => Failed SyntaxError
    | Some errorData =>
        Failed (error_of_body endpoint now (status (http r)) errorData)
    end
  else
    let contentType :=
      match content_type r with
      | Some (c :: s) => c :: s
      | _ => []
      end in
    if includes contentType (lit "text/event-stream")
    then outcome_of_promise (parseSSEStream (http r) now)
    else response_json r.

Definition Exa_request (client : Exa) (now : jstring) (endpoint method : jstring)
    (body : value) (params extra_headers : Options) (w : world)
  : outcome * world :=
  match fetchImpl (request_init client endpoint method body params extra_headers) w with
  | (Fulfilled r, w') => (on_response endpoint now r, w')
  | (Rejected e, w') => (Failed (Thrown e), w')
  | (Pending, w') => (Unsettled, w')
  end.

End Request.

(** ** The constructor of the client and [makeExaService] *)


Definition default_baseURL : jstring := lit "https://api.exa.ai".





(** ** Sources that yield *)

(** From state [s] the next calls of [next] give [items], in order, and
    leave the source in [s']. *)
Fixpoint yields {A S} (gen : AsyncGenerator A S) (s : S) (items : list A)
    (s' : S) : Prop :=
  match items with
  | [] => s' = s
  | a :: rest =>
      exists s1, next gen s = (Resolves (IterValue a), s1)
                 /\ yields gen s1 rest s'
  end.

(** The source has no [return], or one that resolves. *)
Definition quiet_return {A S} (gen : AsyncGenerator A S) : Prop :=
  match return_ gen with
  | None => True
  | Some ret => forall s, fst (ret s) = Resolves tt
  end.

(** ** The text behind the lines *)

(** The lines joined again: a line feed behind each complete line, then
    what was left in the buffer. *)
Definition unsplit (lines : list jstring) (final : jstring) : jstring :=
  flat_map (fun l => l ++ [10%N]) lines ++ final.

(** The citation [processChunk] copies out of an element. *)
Definition citation_fields (c : json) : Citation :=
  mkCitation (field c "id") (field c "url") (field c "title")
             (field c "publishedDate") (field c "author") (field c "text").

(** ** The request of [streamAnswer], and [rawRequest] *)

Section Requests.

Variable JSON_stringify : value -> jstring.
Variable String_ : value -> jstring.
Variable URLSearchParams_toString : list (jstring * jstring) -> jstring.
Variable isZodSchema : value -> bool.
Variable zodToJsonSchema : value -> value.

Definition streamAnswer_body (query options : value) : value :=
  let outputSchema := opt_prop options "outputSchema" in
  let outputSchema :=
    if vtruthy outputSchema && isZodSchema outputSchema
    then zodToJsonSchema outputSchema else outputSchema in
  VObj [(lit "query", query);
        (lit "text", nullish (opt_prop options "text") (VBool false));
        (lit "stream", VBool true);
        (lit "model", nullish (opt_prop options "model") (VStr (lit "exa")));
        (lit "systemPrompt", opt_prop options "systemPrompt");
        (lit "outputSchema", outputSchema);
        (lit "userLocation", opt_prop options "userLocation")].

(** What [streamAnswer] hands to [fetch] before it reads the body. *)
Definition streamAnswer_init (client : Exa) (query options : value) : FetchInit :=
  mkFetchInit (baseURL client ++ lit "/answer") (lit "POST") (headers client)
    (Some (JSON_stringify (streamAnswer_body query options))).

Definition rawRequest_url (client : Exa) (endpoint : jstring)
    (queryParams : Options) : jstring :=
  match queryParams with
  | Some p =>
      baseURL client ++ endpoint ++ lit "?"
      ++ URLSearchParams_toString (search_params String_ p)
  | None => baseURL client ++ endpoint
  end.

(** What [rawRequest] hands to [fetch]; [method] is ["POST"] when it is not
    given. *)
Definition rawRequest_init (client : Exa) (endpoint : jstring)
    (method : option jstring) (body : value) (queryParams : Options)
  : FetchInit :=
  mkFetchInit (rawRequest_url client endpoint queryParams)
    (match method with Some m => m | None => lit "POST" end)
    (headers client)
    (if vtruthy body then Some (JSON_stringify body) else None).

End Requests.

(* ===================================================================== *)
(** * Properties                                                          *)
(* ===================================================================== *)

Lemma decode_app d a b :
  decode d (a ++ b) =
  let '(d1, o1) := decode d a in
  let '(d2, o2) := decode d1 b in (d2, o1 ++ o2).
Proof.
  revert d. induction a as [|x a IH]; intros d; simpl.
  - destruct (decode d b); reflexivity.
  - destruct (decode_byte d x) as [d1 o1]. rewrite IH.
    destruct (decode d1 a) as [d2 o2]. destruct (decode d2 b) as [d3 o3].
    now rewrite app_assoc.
Qed.

(** ** The line reassembler *)

Lemma split_nl_not_nil s : split_nl s <> [].
Proof.
  destruct s as [|c s]; simpl; [discriminate|].
  destruct (N.eqb c 10); [discriminate|].
  destruct (split_nl s); discriminate.
Qed.

Lemma removelast_cons_ne {A} (x : A) l :
  l <> [] -> removelast (x :: l) = x :: removelast l.
Proof. destruct l; [congruence | reflexivity]. Qed.

Lemma last_cons_ne {A} (x : A) l d :
  l <> [] -> last (x :: l) d = last l d.
Proof. destruct l; [congruence | reflexivity]. Qed.

Lemma last_app_ne {A} (l l' : list A) d :
  l' <> [] -> last (l ++ l') d = last l' d.
Proof.
  intros H. induction l as [|x l IH]; [reflexivity|].
  simpl app. rewrite last_cons_ne; [exact IH|].
  destruct l; simpl; [assumption | discriminate].
Qed.

(** Splitting a text given in two parts: the complete lines of the first
    part, then the lines of its unterminated rest followed by the second. *)
Lemma split_nl_app a b :
  split_nl (a ++ b) =
  removelast (split_nl a) ++ split_nl (last (split_nl a) [] ++ b).
Proof.
  induction a as [|c a IH]; [reflexivity|].
  simpl. destruct (N.eqb c 10) eqn:Hc.
  - rewrite removelast_cons_ne by apply split_nl_not_nil.
    rewrite last_cons_ne by apply split_nl_not_nil.
    rewrite IH. reflexivity.
  - rewrite IH. pose proof (split_nl_not_nil a) as Hne.
    destruct (split_nl a) as [|l ls]; [congruence|].
    destruct ls as [|l' ls].
    + simpl. rewrite Hc. reflexivity.
    + rewrite (removelast_cons_ne (c :: l)) by discriminate.
      rewrite (last_cons_ne (c :: l)) by discriminate.
      rewrite (removelast_cons_ne l) by discriminate.
      rewrite (last_cons_ne l) by discriminate.
      reflexivity.
Qed.

(** What stays in the buffer holds no line feed. *)
Lemma split_nl_last s :
  split_nl (last (split_nl s) []) = [last (split_nl s) []].
Proof.
  induction s as [|c s IH]; [reflexivity|].
  simpl. destruct (N.eqb c 10) eqn:Hc.
  - rewrite last_cons_ne by apply split_nl_not_nil. exact IH.
  - pose proof (split_nl_not_nil s) as Hne.
    destruct (split_nl s) as [|l ls]; [congruence|].
    destruct ls as [|l' ls].
    + simpl in *. rewrite Hc, IH. reflexivity.
    + rewrite (last_cons_ne (c :: l)) by discriminate.
      rewrite (last_cons_ne l) in IH by discriminate. exact IH.
Qed.

(** The reassembler computes the lines of the whole decoded text, whatever
    the reads are. *)
Lemma reassemble_spec reads : forall decoder buffer,
  split_nl buffer = [buffer] ->
  reassemble decoder buffer reads =
  pop (split_nl (buffer ++ snd (decode decoder (List.concat reads)))).
Proof.
  induction reads as [|value rest IH]; intros decoder buffer Hb.
  - simpl. rewrite app_nil_r, Hb. reflexivity.
  - simpl. rewrite decode_app.
    destruct (decode decoder value) as [d1 o1].
    destruct (decode d1 (List.concat rest)) as [d2 o2] eqn:E2.
    unfold pop at 1.
    rewrite IH by apply split_nl_last. rewrite E2. simpl snd.
    unfold pop. rewrite app_assoc, (split_nl_app (buffer ++ o1) o2).
    f_equal.
    + symmetry. apply removelast_app, split_nl_not_nil.
    + symmetry. apply last_app_ne, split_nl_not_nil.
Qed.

Lemma reassemble_decoded reads :
  reassemble new_TextDecoder [] reads = pop (split_nl (decoded reads)).
Proof. now rewrite reassemble_spec. Qed.

(** C2. The line reassembler is chunk-boundary invariant: two sequences of
    reads with the same bytes give the same complete lines, in the same
    order, and leave the same text in the buffer; these are the lines of the
    whole decoded text, none lost and none twice. *)
Theorem reassemble_chunk_invariant reads1 reads2 :
  List.concat reads1 = List.concat reads2 ->
  reassemble new_TextDecoder [] reads1 = reassemble new_TextDecoder [] reads2
  /\ reassemble new_TextDecoder [] reads1 = pop (split_nl (decoded reads1)).
Proof.
  intros H. rewrite !reassemble_decoded. unfold decoded. rewrite H. auto.
Qed.

Lemma reassemble_chunk_invariant_witness :
  let whole := transcript "data: {'a':1}|: keepalive|data: [DONE]|data: {'b" in
  List.concat [whole] = List.concat (bytewise whole)
  /\ reassemble new_TextDecoder [] [whole]
     = reassemble new_TextDecoder [] (bytewise whole)
  /\ fst (reassemble new_TextDecoder [] (bytewise whole))
     = [json_text "data: {'a':1}"; lit ": keepalive"; lit "data: [DONE]"].
Proof.
  intros whole.
  assert (H : List.concat [whole] = List.concat (bytewise whole))
    by (vm_compute; reflexivity).
  split; [exact H|]. split.
  - exact (proj1 (reassemble_chunk_invariant [whole] (bytewise whole) H)).
  - vm_compute. reflexivity.
Defined.

(** ** The consumers read lines, not chunks *)

Lemma stream_lines_app l1 l2 :
  stream_lines (l1 ++ l2) =
  match stream_lines l1 with
  | (ys, Some e) => (ys, Some e)
  | (ys, None) => let '(ys', t) := stream_lines l2 in (ys ++ ys', t)
  end.
Proof.
  induction l1 as [|line l1 IH]; simpl.
  - destruct (stream_lines l2); reflexivity.
  - destruct (data_payload line) as [jsonStr|]; [|exact IH].
    destruct (JSON_parse jsonStr) as [chunkData|]; [|exact IH].
    destruct (processChunk (Some chunkData)) as [chunk|e]; [|reflexivity].
    rewrite IH. destruct (stream_lines l1) as [ys [e|]].
    + reflexivity.
    + destruct (stream_lines l2) as [ys' t].
      destruct (has_payload chunk); reflexivity.
Qed.

Lemma stream_loop_lines reads : forall decoder buffer,
  stream_loop decoder buffer reads =
  let '(lines, final) := reassemble decoder buffer reads in
  stream_of_lines lines final.
Proof.
  induction reads as [|value rest IH]; intros decoder buffer; simpl.
  - reflexivity.
  - destruct (decode decoder value) as [d1 o1].
    set (lines := removelast _). set (b1 := last _ _).
    rewrite IH. destruct (reassemble d1 b1 rest) as [lines' final].
    unfold stream_of_lines. rewrite stream_lines_app.
    destruct (stream_lines lines) as [ys [e|]]; [reflexivity|].
    destruct (stream_lines lines') as [ys' [e|]]; [reflexivity|].
    now rewrite app_assoc.
Qed.

Lemma sse_lines_app now l1 l2 :
  sse_lines now (l1 ++ l2) =
  match sse_lines now l1 with
  | Fallthrough => sse_lines now l2
  | c => c
  end.
Proof.
  induction l1 as [|line l1 IH]; simpl; [reflexivity|].
  destruct (data_payload line) as [jsonStr|]; [|exact IH].
  destruct (JSON_parse jsonStr) as [chunk|]; [|exact IH].
  destruct (on_chunk now (Some chunk)); [exact IH | reflexivity ..].
Qed.

Lemma sse_loop_lines now reads : forall decoder buffer,
  sse_loop now decoder buffer reads =
  sse_of_lines now (fst (reassemble decoder buffer reads)).
Proof.
  induction reads as [|value rest IH]; intros decoder buffer; simpl.
  - reflexivity.
  - destruct (decode decoder value) as [d1 o1].
    set (lines := removelast _). set (b1 := last _ _).
    rewrite IH. destruct (reassemble d1 b1 rest) as [lines' final].
    simpl fst. unfold sse_of_lines. rewrite sse_lines_app.
    destruct (sse_lines now lines); reflexivity.
Qed.

Lemma streamAnswer_lines reads now :
  let run := streamAnswer (ok_response reads) now in
  (yielded run, thrown run)
  = stream_of_lines (removelast (split_nl (decoded reads)))
                    (last (split_nl (decoded reads)) []).
Proof.
  unfold streamAnswer. simpl.
  rewrite stream_loop_lines, reassemble_decoded. unfold pop.
  destruct (stream_of_lines _ _); reflexivity.
Qed.

Lemma parseSSEStream_lines reads now :
  parseSSEStream (ok_response reads) now =
  settle (match sse_of_lines now (removelast (split_nl (decoded reads))) with
          | Returned evs => evs ++ [ReleaseLock]
          | Raised e => [Reject e; ReleaseLock]
          | Fallthrough => [ReleaseLock]
          end).
Proof.
  unfold parseSSEStream, sse_executor. simpl.
  now rewrite sse_loop_lines, reassemble_decoded.
Qed.

(** Both consumers depend on the bytes of the body only, not on how the
    reads cut them. *)
Corollary consumers_chunk_invariant reads1 reads2 now :
  List.concat reads1 = List.concat reads2 ->
  streamAnswer (ok_response reads1) now = streamAnswer (ok_response reads2) now
  /\ parseSSEStream (ok_response reads1) now
     = parseSSEStream (ok_response reads2) now.
Proof.
  intros H. split.
  - unfold streamAnswer. simpl.
    rewrite !stream_loop_lines, !reassemble_decoded.
    unfold decoded. now rewrite H.
  - rewrite !parseSSEStream_lines. unfold decoded. now rewrite H.
Qed.

(** ** The end marker *)

Lemma data_payload_done line :
  is_done_line line = true -> data_payload line = None.
Proof.
  unfold is_done_line, data_payload. intros H.
  apply andb_true_iff in H as [H1 H2]. rewrite H1, H2. simpl.
  destruct (trim (replace_data_prefix line)); reflexivity.
Qed.

Lemma data_payload_not_done line jsonStr :
  data_payload line = Some jsonStr -> is_done_line line = false.
Proof.
  intros H. destruct (is_done_line line) eqn:E; [|reflexivity].
  rewrite (data_payload_done _ E) in H. discriminate.
Qed.

Lemma stream_lines_without_done lines :
  stream_lines (filter (fun l => negb (is_done_line l)) lines)
  = stream_lines lines.
Proof.
  induction lines as [|line lines IH]; [reflexivity|].
  simpl. destruct (is_done_line line) eqn:E; simpl.
  - now rewrite (data_payload_done _ E).
  - destruct (data_payload line) as [jsonStr|]; [|exact IH].
    destruct (JSON_parse jsonStr) as [chunkData|]; [|exact IH].
    now rewrite IH.
Qed.

(** The block behind the loop treats the buffer as the loop treats a line,
    but for what [processChunk] throws. *)
Lemma stream_leftover_payload buffer :
  stream_leftover buffer =
  match data_payload buffer with
  | None => []
  | Some jsonStr =>
      match JSON_parse jsonStr with
      | None => []
      | Some chunkData =>
          match processChunk (Some chunkData) with
          | Throw _ => []
          | Ok chunk => if has_payload chunk then [chunk] else []
          end
      end
  end.
Proof.
  unfold stream_leftover, data_payload.
  destruct (startsWith buffer (lit "data: ")); simpl; [|reflexivity].
  destruct (trim (replace_data_prefix buffer)) as [|c r]; [reflexivity|].
  destruct (text_eqb (c :: r) (lit "[DONE]")); reflexivity.
Qed.

Lemma stream_leftover_done final :
  is_done_line final = true -> stream_leftover final = [].
Proof.
  intros H. now rewrite stream_leftover_payload, (data_payload_done _ H).
Qed.

Lemma stream_lines_origin lines chunk :
  In chunk (fst (stream_lines lines)) ->
  exists line, In line lines /\ chunk_of_line line chunk.
Proof.
  induction lines as [|line lines IH]; simpl; [tauto|].
  destruct (data_payload line) as [jsonStr|] eqn:E1;
    [|intros H; destruct (IH H) as [l [? ?]]; eauto].
  destruct (JSON_parse jsonStr) as [chunkData|] eqn:E2;
    [|intros H; destruct (IH H) as [l [? ?]]; eauto].
  destruct (processChunk (Some chunkData)) as [c|e] eqn:E3; [|simpl; tauto].
  destruct (stream_lines lines) as [ys t]. simpl in *.
  destruct (has_payload c) eqn:E4.
  - intros [<-|H].
    + exists line. split; [now left|]. exists jsonStr, chunkData. auto.
    + destruct (IH H) as [l [? ?]]; eauto.
  - intros H. destruct (IH H) as [l [? ?]]; eauto.
Qed.

Lemma stream_leftover_origin final chunk :
  In chunk (stream_leftover final) -> chunk_of_line final chunk.
Proof.
  rewrite stream_leftover_payload. unfold chunk_of_line.
  destruct (data_payload final) as [jsonStr|]; [|simpl; tauto].
  destruct (JSON_parse jsonStr) as [chunkData|] eqn:E1; [|simpl; tauto].
  destruct (processChunk (Some chunkData)) as [c|e] eqn:E2; [|simpl; tauto].
  destruct (has_payload c) eqn:E3; [|simpl; tauto].
  intros [<-|[]]. exists jsonStr, chunkData. auto.
Qed.

Lemma stream_of_lines_origin lines final chunk :
  In chunk (fst (stream_of_lines lines final)) ->
  exists line, In line (lines ++ [final]) /\ chunk_of_line line chunk.
Proof.
  unfold stream_of_lines.
  pose proof (stream_lines_origin lines chunk) as Hl.
  destruct (stream_lines lines) as [ys [e|]]; simpl in *.
  - intros H. destruct (Hl H) as [l [? ?]]. exists l. split; [|assumption].
    apply in_or_app. now left.
  - intros H. apply in_app_or in H as [H|H].
    + destruct (Hl H) as [l [? ?]]. exists l. split; [|assumption].
      apply in_or_app. now left.
    + exists final. split; [apply in_or_app; right; now left|].
      now apply stream_leftover_origin.
Qed.

(** C7. A [data: [DONE]] line is a no-op marker of the incremental consumer.
    Whatever the reads are, the run is the one of the decoded lines with
    every such line taken out, the unterminated last line included; and each
    chunk that is yielded was decoded from a line that is not the marker. *)
Theorem done_marker_is_noop reads now :
  let run := streamAnswer (ok_response reads) now in
  let lines := removelast (split_nl (decoded reads)) in
  let final := last (split_nl (decoded reads)) [] in
  (yielded run, thrown run)
  = stream_of_lines (filter (fun l => negb (is_done_line l)) lines)
                    (if is_done_line final then [] else final)
  /\ forall chunk, In chunk (yielded run) ->
       exists line, In line (lines ++ [final])
                    /\ is_done_line line = false
                    /\ chunk_of_line line chunk.
Proof.
  intros run lines final.
  assert (H : (yielded run, thrown run) = stream_of_lines lines final)
    by apply (streamAnswer_lines reads now).
  split.
  - rewrite H. unfold stream_of_lines. rewrite stream_lines_without_done.
    destruct (stream_lines lines) as [ys [e|]]; [reflexivity|].
    destruct (is_done_line final) eqn:E; [|reflexivity].
    now rewrite (stream_leftover_done _ E).
  - intros chunk Hin.
    assert (Hin' : In chunk (fst (stream_of_lines lines final)))
      by now rewrite <- H.
    destruct (stream_of_lines_origin _ _ _ Hin') as [line [Hl Hc]].
    exists line. split; [assumption|]. split; [|assumption].
    destruct Hc as [jsonStr [? [Hp _]]].
    exact (data_payload_not_done _ Hp).
Qed.

Example is_done_line_plain : is_done_line (lit "data: [DONE]") = true.
Proof. reflexivity. Qed.

Example is_done_line_carriage_return :
  is_done_line (lit "data:   [DONE] " ++ [13%N]) = true.
Proof. reflexivity. Qed.

Lemma done_marker_is_noop_witness :
  let body :=
    transcript "data: {'choices':[{'delta':{'content':'a'}}]}|data: [DONE]|data: [DONE]" in
  yielded (streamAnswer (ok_response (bytewise body)) [])
  = [mkChunk (Some (JStr (lit "a"))) None]
  /\ (forall chunk,
        In chunk (yielded (streamAnswer (ok_response (bytewise body)) [])) ->
        exists line,
          In line (removelast (split_nl (decoded (bytewise body)))
                   ++ [last (split_nl (decoded (bytewise body))) []])
          /\ is_done_line line = false
          /\ chunk_of_line line chunk).
Proof.
  intros body. split; [reflexivity|].
  exact (proj2 (done_marker_is_noop (bytewise body) [])).
Defined.

(** ** The blocking consumer *)

Lemma on_chunk_cases now chunk :
  on_chunk now chunk = Fallthrough
  \/ (exists e, on_chunk now chunk = Raised e)
  \/ (exists ev, is_settlement ev = true
                 /\ on_chunk now chunk = Returned [ReleaseLock; ev]).
Proof.
  unfold on_chunk. destruct (get chunk "tag") as [tag|e]; [|eauto].
  destruct (is_string tag "complete").
  - destruct (get chunk "data") as [d|e]; [|eauto].
    right; right. exists (Resolve d). auto.
  - destruct (is_string tag "error"); [|auto].
    destruct (error_message chunk) as [m|e]; [|eauto].
    right; right. eexists (Reject _). auto.
Qed.

Lemma sse_lines_cases now lines :
  sse_lines now lines = Fallthrough
  \/ (exists e, sse_lines now lines = Raised e)
  \/ (exists ev, is_settlement ev = true
                 /\ sse_lines now lines = Returned [ReleaseLock; ev]).
Proof.
  induction lines as [|line lines IH]; simpl; [auto|].
  destruct (data_payload line) as [jsonStr|]; [|exact IH].
  destruct (JSON_parse jsonStr) as [chunk|]; [|exact IH].
  destruct (on_chunk_cases now (Some chunk)) as [H|[[e H]|[ev [? H]]]];
    rewrite H; eauto.
Qed.

(** The executor settles the promise exactly once, on every body. *)
Lemma sse_executor_settles_once now reads :
  List.length (settlements (sse_executor now reads)) = 1.
Proof.
  unfold sse_executor. rewrite sse_loop_lines. unfold sse_of_lines.
  destruct (sse_lines_cases now (fst (reassemble new_TextDecoder [] reads)))
    as [H|[[e H]|[ev [Hs H]]]]; rewrite H; try reflexivity.
  destruct ev; try discriminate; reflexivity.
Qed.

Lemma get_field j k : j <> JNull -> get (Some j) k = Ok (field j k).
Proof. destruct j; try reflexivity. congruence. Qed.

Lemma error_message_field j :
  j <> JNull -> error_message (Some j) = Ok (message_or_default j).
Proof.
  intros H. unfold error_message, message_or_default.
  rewrite (get_field _ H). simpl.
  destruct (field j "error") as [err|]; [|reflexivity].
  destruct err; try reflexivity.
  simpl. destruct (lookup _ props) as [m|]; reflexivity.
Qed.

Lemma sse_lines_spec now lines :
  Forall (fun j => j <> JNull) (payloads lines) ->
  settle (match sse_of_lines now lines with
          | Returned evs => evs ++ [ReleaseLock]
          | Raised e => [Reject e; ReleaseLock]
          | Fallthrough => [ReleaseLock]
          end)
  = blocking_spec now (payloads lines).
Proof.
  unfold sse_of_lines.
  induction lines as [|line lines IH]; simpl; [reflexivity|].
  destruct (data_payload line) as [jsonStr|]; [|exact IH].
  destruct (JSON_parse jsonStr) as [j|]; [|exact IH].
  intros H. inversion H as [|? ? Hj Hrest]; subst.
  unfold on_chunk. rewrite !(get_field _ Hj). simpl blocking_spec.
  destruct (is_string (field j "tag") "complete"); [reflexivity|].
  destruct (is_string (field j "tag") "error").
  - rewrite (error_message_field Hj). reflexivity.
  - exact (IH Hrest).
Qed.

(** Where no forwarded payload is the JSON value [null], the blocking
    consumer is the state machine of the specification: it resolves with the
    [data] of the first line tagged ["complete"], rejects with the message
    of the first line tagged ["error"] and the internal-error status, and
    rejects with the protocol error when the complete lines hold neither. *)
Lemma parseSSEStream_spec reads now :
  Forall (fun j => j <> JNull)
         (payloads (removelast (split_nl (decoded reads)))) ->
  parseSSEStream (ok_response reads) now
  = blocking_spec now (payloads (removelast (split_nl (decoded reads)))).
Proof.
  intros H. rewrite parseSSEStream_lines. now apply sse_lines_spec.
Qed.

(** The examples of the specification. *)
Example parseSSEStream_complete now :
  parseSSEStream
    (ok_response [transcript "data: {'tag':'complete','data':{'x':1}}|"]) now
  = Fulfilled (Some (JObj [(lit "x", JNum (num 1))])).
Proof. reflexivity. Qed.

Example parseSSEStream_error now :
  parseSSEStream
    (ok_response [transcript "data: {'tag':'error','error':{'message':'boom'}}|"])
    now
  = Rejected (ExaErr (mkExaError (JStr (lit "boom"))
                        HttpStatusCode.InternalServerError (Some now) None)).
Proof. reflexivity. Qed.

Example parseSSEStream_progress_only now :
  parseSSEStream
    (ok_response (bytewise
       (transcript "data: {'tag':'progress'}|data: {oops|data: {'tag':'progress'}|")))
    now
  = Rejected (stream_ended now).
Proof. reflexivity. Qed.

(** C1. The blocking consumer does not pass over every line that is not
    terminal: a payload that is the JSON value [null] makes [chunk.tag]
    throw, and the promise is rejected with that [TypeError] although a
    line tagged ["complete"] follows; the same body without the [null] line
    resolves. *)
Theorem parseSSEStream_null_payload now :
  parseSSEStream
    (ok_response
       [transcript "data: null|data: {'tag':'complete','data':{'x':1}}|"]) now
  = Rejected TypeError
  /\ parseSSEStream
       (ok_response [transcript "data: {'tag':'complete','data':{'x':1}}|"]) now
     = Fulfilled (Some (JObj [(lit "x", JNum (num 1))]))
  /\ blocking_spec now
       (payloads (removelast (split_nl (decoded
          [transcript "data: null|data: {'tag':'complete','data':{'x':1}}|"]))))
     = Fulfilled (Some (JObj [(lit "x", JNum (num 1))])).
Proof. repeat split. Qed.

(** ** The flush at the end of the body *)

(** The incremental consumer reads what is left in the buffer once the body
    is exhausted. *)
Lemma streamAnswer_flushes reads now :
  let run := streamAnswer (ok_response reads) now in
  thrown run = None ->
  yielded run
  = fst (stream_lines (removelast (split_nl (decoded reads))))
    ++ stream_leftover (last (split_nl (decoded reads)) []).
Proof.
  intros run Ht. pose proof (streamAnswer_lines reads now) as H.
  fold run in H. unfold stream_of_lines in H.
  destruct (stream_lines _) as [ys [e|]]; inversion H as [[H1 H2]]; simpl.
  - congruence.
  - exact H1.
Qed.

(** The blocking consumer never reads it: its result is decided by the
    complete lines alone. *)
Lemma parseSSEStream_skips_leftover reads now :
  sse_lines now (removelast (split_nl (decoded reads))) = Fallthrough ->
  parseSSEStream (ok_response reads) now = Rejected (stream_ended now).
Proof.
  intros H. rewrite parseSSEStream_lines. unfold sse_of_lines.
  rewrite H. reflexivity.
Qed.

(** C5. A body that ends in a complete [data:] line without its line feed:
    the incremental consumer still yields the chunk of that line, the
    blocking consumer rejects with the protocol error instead of resolving
    with the [data] of the line, as it does once the line feed is there. *)
Theorem unterminated_last_line now :
  yielded (streamAnswer
     (ok_response [transcript "data: {'choices':[{'delta':{'content':'hi'}}]}"])
     now)
  = [mkChunk (Some (JStr (lit "hi"))) None]
  /\ parseSSEStream
       (ok_response [transcript "data: {'tag':'complete','data':{'x':1}}"]) now
     = Rejected (stream_ended now)
  /\ parseSSEStream
       (ok_response [transcript "data: {'tag':'complete','data':{'x':1}}|"]) now
     = Fulfilled (Some (JObj [(lit "x", JNum (num 1))])).
Proof. repeat split. Qed.

(** ** The chunk decoder and the filter of the incremental consumer *)

Lemma get_truthy v k : truthy v = true -> exists w, get v k = Ok w.
Proof.
  destruct v as [[| | | | |]|]; simpl; try discriminate; eauto.
Qed.

Lemma get0_truthy v : truthy v = true -> exists w, get0 v = Ok w.
Proof.
  destruct v as [[| | |[|c s]| |]|]; simpl; try discriminate; eauto.
Qed.

(** On a parsed object the decoder throws only inside [citations.map]. *)
Lemma processChunk_object props :
  exists c,
    processChunk (Some (JObj props)) =
    (citations <-
       (if truthy (lookup (lit "citations") props)
           && negb (is_string (lookup (lit "citations") props) "null")
        then cs <- Array_map (lookup (lit "citations") props) citation_of ;;
             Ok (Some cs)
        else Ok None) ;;
     Ok (mkChunk c citations)).
Proof.
  unfold processChunk. simpl get at 1. simpl bind at 1.
  destruct (truthy (lookup (lit "choices") props)) eqn:E1; [|eexists; reflexivity].
  destruct (get0_truthy _ E1) as [first ->]. simpl bind at 1.
  destruct (truthy first) eqn:E2; [|eexists; reflexivity].
  destruct (get_truthy _ "delta" E2) as [delta ->]. simpl bind at 1.
  destruct (truthy delta) eqn:E3; [|eexists; reflexivity].
  destruct (get_truthy _ "content" E3) as [c ->]. eexists; reflexivity.
Qed.

Lemma stream_lines_has_payload lines chunk :
  In chunk (fst (stream_lines lines)) -> has_payload chunk = true.
Proof.
  intros H. destruct (stream_lines_origin _ _ H) as [l [_ [? [? [_ [_ [_ E]]]]]]].
  exact E.
Qed.





(** ** The guard of the non-streaming answer call *)

(** C10. With a truthy [stream] option the non-streaming [answer] fails at
    once with an [ExaError] of status [BadRequest], 400, that points to
    [streamAnswer]; the world is left as it was, no request is made. *)
Theorem answer_rejects_stream_option
    (world response_value : Type)
    (request : jstring -> jstring -> value -> world -> promise response_value * world)
    (isZodSchema : value -> bool) (zodToJsonSchema : value -> value)
    (query options : value) (w : world) :
  vtruthy (opt_prop options "stream") = true ->
  answer request isZodSchema zodToJsonSchema query options w
  = (Rejected (ExaErr (mkExaError streaming_hint HttpStatusCode.BadRequest
                         None None)), w)
  /\ HttpStatusCode.BadRequest = num 400.
Proof. intros H. unfold answer. rewrite H. split; reflexivity. Qed.

Lemma answer_rejects_stream_option_witness :
  vtruthy (opt_prop (VObj [(lit "stream", VBool true)]) "stream") = true
  /\ answer recording_request (fun _ => false) (fun v => v)
       (VStr (lit "What is AI?")) (VObj [(lit "stream", VBool true)]) []
     = (Rejected (ExaErr (mkExaError streaming_hint (num 400) None None)), [])
  /\ snd (answer recording_request (fun _ => false) (fun v => v)
            (VStr (lit "What is AI?")) VUndefined [])
     = [(lit "/answer", lit "POST",
         VObj [(lit "query", VStr (lit "What is AI?"));
               (lit "stream", VBool false);
               (lit "text", VBool false);
               (lit "model", VStr (lit "exa"));
               (lit "systemPrompt", VUndefined);
               (lit "outputSchema", VUndefined);
               (lit "userLocation", VUndefined)])].
Proof.
  split; [reflexivity|]. split.
  - apply (answer_rejects_stream_option recording_request
             (fun _ => false) (fun v => v)
             (VStr (lit "What is AI?")) (VObj [(lit "stream", VBool true)]) []).
    reflexivity.
  - reflexivity.
Defined.

(** ** The error normaliser *)




(** The cases of the test suite. *)
Example toExaError_status :
  toExaError (fun _ => lit "[object Object]")
    (Other (VObj [(lit "status", VNum (num 429));
                  (lit "message", VStr (lit "Rate limited"))]))
  = mkExaError (JStr (lit "Rate limited")) (num 429) None None.
Proof. reflexivity. Qed.

Example toExaError_string :
  toExaError (fun v => match v with VStr s => s | _ => [] end)
    (Other (VStr (lit "string error")))
  = mkExaError (JStr (lit "string error")) (num 500) None None.
Proof. reflexivity. Qed.

(** ** The generator-to-stream adapter *)

Section AdapterProperties.

Variable String_ : value -> jstring.
Variables A S : Type.
Variable gen : AsyncGenerator A S.

Lemma pull_calls n : forall s log,
  exists k, k <= n /\ (0 < n -> 0 < k)
    /\ snd (pull String_ gen n s log) = log ++ repeat CallNext k.
Proof.
  induction n as [|n IH]; intros s log; simpl.
  - exists 0. split; [lia|]. split; [lia|]. now rewrite app_nil_r.
  - destruct (next gen s) as [r s'].
    destruct r as [[a|]|reason]; simpl.
    + destruct (IH s' (log ++ [CallNext])) as [k [Hk [_ Hlog]]].
      destruct (pull String_ gen n s' (log ++ [CallNext])) as [[[items e] s''] log''].
      simpl in *. exists (Datatypes.S k). split; [lia|]. split; [lia|].
      rewrite Hlog, <- app_assoc. reflexivity.
    + exists 1. split; [lia|]. split; [lia|]. reflexivity.
    + exists 1. split; [lia|]. split; [lia|]. reflexivity.
Qed.


Lemma consume_calls s0 c :
  exists k, k <= budget c /\ (0 < budget c -> 0 < k)
    /\ snd (consume String_ gen s0 c) = repeat CallNext k.
Proof.
  unfold consume.
  destruct (pull_calls (budget c) s0 []) as [k [H1 [H2 H3]]].
  destruct (pull String_ gen (budget c) s0 []) as [[[items e] s1] log1].
  simpl in *. exists k. auto.
Qed.




End AdapterProperties.

(** The cases of the test suite: the stream collected to its end, and cut
    after one item. *)
Example adapter_collects_all :
  let run := streamFromAsyncGenerator (fun _ => [])
               (mock_generator [1; 2] (Resolves tt)) false (0, 0) (take 5) in
  exit run = Success [1; 2]
  /\ calls run = [CallNext; CallNext; CallNext; CallReturn].
Proof. split; reflexivity. Qed.

Example adapter_takes_one :
  let run := streamFromAsyncGenerator (fun _ => [])
               (mock_generator [1; 2; 3] (Resolves tt)) false (0, 0) (take 1) in
  exit run = Success [1]
  /\ calls run = [CallNext; CallReturn]
  /\ final_state run = (1, 1).
Proof. repeat split. Qed.





(** ** The research poller *)

Lemma client_pollUntilFinished_running id timeoutMs before world :
  Forall (still_running timeoutMs) before ->
  client_pollUntilFinished id timeoutMs (before ++ world)
  = client_pollUntilFinished id timeoutMs world.
Proof.
  induction 1 as [|o before Ho _ IH]; [reflexivity|].
  destruct o as [r elapsed|reason]; [|contradiction].
  destruct Ho as [Hf Ht]. simpl. rewrite Hf.
  destruct (Z.ltb_spec timeoutMs elapsed); [lia | exact IH].
Qed.

Lemma client_pollUntilFinished_rejects id timeoutMs world reason :
  client_pollUntilFinished id timeoutMs world = Some (Rejects reason) ->
  (exists elapsed, (timeoutMs < elapsed)%Z /\ reason = timeout_error id elapsed)
  \/ In (FetchRejects reason) world.
Proof.
  induction world as [|o world IH]; simpl; [discriminate|].
  destruct o as [r elapsed|reason'].
  - destruct (is_finished (research_status r)); [discriminate|].
    destruct (Z.ltb_spec timeoutMs elapsed) as [Hlt|Hge].
    + intros H. inversion H. left. eauto.
    + intros H. destruct (IH H) as [?|?]; auto.
  - intros H. inversion H. right. now left.
Qed.

(** C9.  Against the poller of the specification: a job seen to be
    ["failed"] or ["canceled"], after turns in which it was still running
    within the timeout, makes [pollUntilFinished] succeed with that record;
    and when [pollUntilFinished] fails, the wait was rejected by the timeout
    or by a fetch that failed, the reason being normalised by
    [toExaError]. *)
Theorem pollUntilFinished_terminal_failure
    (String_ : value -> jstring) (id : jstring) (timeoutMs : Z) :
  (forall before r elapsed rest,
     Forall (still_running timeoutMs) before ->
     research_status r = StatusFailed \/ research_status r = StatusCanceled ->
     pollUntilFinished String_ id timeoutMs (before ++ Observed r elapsed :: rest)
     = Some (Success r))
  /\ (forall world cause,
        pollUntilFinished String_ id timeoutMs world = Some (Failure cause) ->
        exists reason,
          cause = Fail (toExaError String_ reason)
          /\ ((exists elapsed, (timeoutMs < elapsed)%Z
                               /\ reason = timeout_error id elapsed)
              \/ In (FetchRejects reason) world)).
Proof.
  split.
  - intros before r elapsed rest Hb Hr. unfold pollUntilFinished.
    rewrite (client_pollUntilFinished_running id _ Hb). simpl.
    destruct Hr as [-> | ->]; reflexivity.
  - intros world cause. unfold pollUntilFinished.
    destruct (client_pollUntilFinished id timeoutMs world) as [[r|reason]|] eqn:E;
      simpl; try discriminate.
    intros H. inversion H. exists reason. split; [reflexivity|].
    exact (client_pollUntilFinished_rejects _ _ _ E).
Qed.

Lemma pollUntilFinished_terminal_failure_witness :
  let running := mkResearch (lit "r_1") StatusRunning in
  let failed := mkResearch (lit "r_1") StatusFailed in
  Forall (still_running 1000) [Observed running 10; Observed running 20]
  /\ pollUntilFinished (fun _ => []) (lit "r_1") 1000
       ([Observed running 10; Observed running 20] ++ Observed failed 30 :: [])
     = Some (Success failed)
  /\ pollUntilFinished (fun _ => lit "[object Object]") (lit "r_1") 50
       [Observed running 10; Observed running 60]
     = Some (Failure (Fail (mkExaError
                (JStr (lit "Polling timeout: research r_1"))
                (num 500) None None))).
Proof.
  intros running failed.
  assert (H : Forall (still_running 1000)
                [Observed running 10; Observed running 20]).
  { repeat constructor; simpl; lia. }
  split; [exact H|]. split.
  - exact (proj1 (pollUntilFinished_terminal_failure (fun _ => []) (lit "r_1") 1000)
             _ failed 30%Z [] H (or_introl eq_refl)).
  - reflexivity.
Defined.

(** ** Plain objects *)

Lemma text_eqb_eq a : forall b, text_eqb a b = true <-> a = b.
Proof.
  induction a as [|x a IH]; intros [|y b]; simpl; split; try easy.
  - intros H. apply andb_true_iff in H as [H1 H2].
    apply N.eqb_eq in H1. apply IH in H2. congruence.
  - intros H. inversion H; subst. rewrite N.eqb_refl. simpl. now apply IH.
Qed.

Lemma text_eqb_refl a : text_eqb a a = true.
Proof. now apply text_eqb_eq. Qed.

Lemma text_eqb_sym a b : text_eqb a b = text_eqb b a.
Proof.
  destruct (text_eqb a b) eqn:E1, (text_eqb b a) eqn:E2; try reflexivity.
  - apply text_eqb_eq in E1. subst. now rewrite text_eqb_refl in E2.
  - apply text_eqb_eq in E2. subst. now rewrite text_eqb_refl in E1.
Qed.

Lemma own_set_prop k k' v o :
  own k (set_prop k' v o) = if text_eqb k k' then Some v else own k o.
Proof.
  induction o as [|[k0 v0] o IH]; simpl.
  - destruct (text_eqb k k'); reflexivity.
  - destruct (text_eqb k' k0) eqn:E0; simpl.
    + apply text_eqb_eq in E0. subst k0.
      destruct (text_eqb k k'); reflexivity.
    + rewrite IH. destruct (text_eqb k k0) eqn:E1; [|reflexivity].
      apply text_eqb_eq in E1. subst k0.
      now rewrite text_eqb_sym, E0.
Qed.

Lemma own_without k k' o :
  own k (without k' o) = if text_eqb k k' then None else own k o.
Proof.
  induction o as [|[k0 v0] o IH]; simpl.
  - destruct (text_eqb k k'); reflexivity.
  - destruct (text_eqb k0 k') eqn:E0; simpl.
    + rewrite IH. apply text_eqb_eq in E0. subst k0.
      destruct (text_eqb k k'); reflexivity.
    + rewrite IH. destruct (text_eqb k k0) eqn:E1; [|reflexivity].
      apply text_eqb_eq in E1. subst k0. now rewrite E0.
Qed.

Lemma own_entries k o : own k (entries o) = own k o.
Proof.
  induction o as [|[k0 v0] o IH]; simpl; [reflexivity|].
  destruct (text_eqb k k0) eqn:E; [reflexivity|].
  now rewrite own_without, E.
Qed.

Lemma unique_without k o : unique o -> unique (without k o).
Proof.
  induction o as [|[k0 v0] o IH]; simpl; [trivial|].
  intros [H1 H2]. destruct (text_eqb k0 k); simpl; [auto|].
  split; [|auto]. rewrite own_without, H1.
  destruct (text_eqb k0 k); reflexivity.
Qed.

Lemma unique_entries o : unique (entries o).
Proof.
  induction o as [|[k0 v0] o IH]; simpl; [trivial|].
  split; [|now apply unique_without].
  now rewrite own_without, text_eqb_refl.
Qed.

Lemma own_app k o1 o2 :
  own k (o1 ++ o2) = match own k o1 with Some v => Some v | None => own k o2 end.
Proof.
  induction o1 as [|[k0 v0] o1 IH]; simpl; [reflexivity|].
  destruct (text_eqb k k0); [reflexivity | exact IH].
Qed.

Lemma own_rev_unique k o : unique o -> own k (rev o) = own k o.
Proof.
  induction o as [|[k0 v0] o IH]; simpl; [reflexivity|].
  intros [H1 H2]. rewrite own_app, (IH H2). simpl.
  destruct (text_eqb k k0) eqn:E.
  - apply text_eqb_eq in E. subst. now rewrite H1.
  - destruct (own k o); reflexivity.
Qed.

Lemma own_fold_set_prop k l : forall t,
  own k (fold_left (fun acc kv => set_prop (fst kv) (snd kv) acc) l t)
  = match own k (rev l) with Some v => Some v | None => own k t end.
Proof.
  induction l as [|[k0 v0] l IH]; intros t; simpl; [reflexivity|].
  rewrite IH, own_app, own_set_prop. simpl.
  destruct (own k (rev l)); [reflexivity|].
  destruct (text_eqb k k0); reflexivity.
Qed.

(** A spread reads from the source first, then from the target. *)
Lemma own_spread k target source :
  own k (spread target source)
  = match own k source with Some v => Some v | None => own k target end.
Proof.
  unfold spread.
  now rewrite own_fold_set_prop, own_rev_unique, own_entries
    by apply unique_entries.
Qed.

Lemma own_spread_options k target options :
  own k (spread_options target options)
  = match option_own k options with Some v => Some v | None => own k target end.
Proof. destruct options; simpl; [apply own_spread | reflexivity]. Qed.

(** The rest of a destructuring holds what the pattern does not name. *)
Lemma own_omit k ks o :
  own k (omit ks o)
  = if existsb (fun k' => text_eqb k (lit k')) ks then None else own k o.
Proof.
  unfold omit. induction ks as [|k0 ks IH]; simpl.
  - apply own_entries.
  - rewrite own_without, IH.
    destruct (text_eqb k (lit k0)); reflexivity.
Qed.

(** ** The request builders *)

Section ClientProperties.

Variable world : Type.
Variable response_value : Type.
Variable request :
  jstring -> jstring -> value -> world -> promise response_value * world.
Variable isZodSchema : value -> bool.
Variable zodToJsonSchema : value -> value.

Lemma sent_field_default name arg options k :
  option_own (lit "contents") options = None ->
  own k (set_prop (lit "contents") (VObj default_contents)
           (spread_options [(lit name, arg)] options))
  = sent_field name arg options k.
Proof.
  intros H. rewrite own_set_prop, own_spread_options. unfold sent_field.
  rewrite H. destruct (text_eqb k (lit "contents")); [reflexivity|].
  simpl. destruct (option_own k options); reflexivity.
Qed.

Lemma sent_field_rest name arg o c k :
  text_eqb (lit "contents") (lit name) = false ->
  own (lit "contents") o = Some c ->
  contents_disabled c = true ->
  own k (spread [(lit name, arg)] (omit ["contents"%string] o))
  = sent_field name arg (Some o) k.
Proof.
  intros Hname H Hc. rewrite own_spread, own_omit. unfold sent_field. simpl.
  rewrite H, Hc.
  destruct (text_eqb k (lit "contents")) eqn:E; simpl.
  - apply text_eqb_eq in E. subst k. now rewrite Hname.
  - destruct (own k o); reflexivity.
Qed.

Lemma sent_field_given name arg o c k :
  text_eqb (lit "contents") (lit name) = false ->
  own (lit "contents") o = Some c ->
  contents_disabled c = false ->
  own k (spread [(lit name, arg)] o) = sent_field name arg (Some o) k.
Proof.
  intros Hname H Hc. rewrite own_spread. unfold sent_field. simpl.
  rewrite H, Hc.
  destruct (text_eqb k (lit "contents")) eqn:E.
  - apply text_eqb_eq in E. subst k. now rewrite H.
  - destruct (own k o); reflexivity.
Qed.

(** X1. [search] makes one POST to [/search] whose body holds, key by key:
    every option as given; the query, unless the options carry a [query] of
    their own; and under [contents] the default text contents when the
    options have no such key, nothing when it is [false], [null] or
    [undefined], and the given value otherwise. *)
Theorem search_body query options w :
  exists body,
    search request query options w
    = request (lit "/search") (lit "POST") (VObj body) w
    /\ forall k, own k body = sent_field "query" query options k.
Proof.
  unfold search.
  destruct (option_own (lit "contents") options) as [c|] eqn:E.
  - destruct options as [o|]; [|discriminate]. simpl in E.
    destruct (contents_disabled c) eqn:Hc; eexists; split; try reflexivity;
      intros k.
    + now apply sent_field_rest with (c := c).
    + now apply sent_field_given with (c := c).
  - eexists; split; [reflexivity|]. intros k. now apply sent_field_default.
Qed.

(** X2. [findSimilar] makes one POST to [/findSimilar] with the body of
    [search], the [url] standing where the query stands. *)
Theorem findSimilar_body url options w :
  exists body,
    findSimilar request url options w
    = request (lit "/findSimilar") (lit "POST") (VObj body) w
    /\ forall k, own k body = sent_field "url" url options k.
Proof.
  unfold findSimilar.
  destruct (option_own (lit "contents") options) as [c|] eqn:E.
  - destruct options as [o|]; [|discriminate]. simpl in E.
    destruct (contents_disabled c) eqn:Hc; eexists; split; try reflexivity;
      intros k.
    + now apply sent_field_rest with (c := c).
    + now apply sent_field_given with (c := c).
  - eexists; split; [reflexivity|]. intros k. now apply sent_field_default.
Qed.

End ClientProperties.

Section ContentsProperties.

Variable world : Type.
Variable response_value : Type.
Variable request :
  jstring -> jstring -> value -> world -> promise response_value * world.
Variable isZodSchema : value -> bool.
Variable zodToJsonSchema : value -> value.

Lemma own_assign_defined k k' v o :
  own k (assign_defined k' v o)
  = if text_eqb k (lit k') && negb (is_undefined v) then Some v else own k o.
Proof.
  unfold assign_defined. destruct (is_undefined v); simpl.
  - now rewrite andb_false_r.
  - now rewrite own_set_prop, andb_true_r.
Qed.

Lemma read_own o k :
  (if is_undefined (read o k) then None else Some (read o k))
  = match own (lit k) o with
    | Some v => if is_undefined v then None else Some v
    | None => None
    end.
Proof. unfold read. destruct (own (lit k) o); reflexivity. Qed.

Ltac key_case k :=
  match goal with
  | |- context [text_eqb k (lit ?s)] =>
      let E := fresh "E" in
      destruct (text_eqb k (lit s)) eqn:E;
      [apply text_eqb_eq in E; subst k | ]
  end.

Lemma own_extracted_contents options k :
  own k (fst (extractContentsOptions isZodSchema zodToJsonSchema options))
  = contents_field (summary_option isZodSchema zodToJsonSchema) options k.
Proof.
  unfold extractContentsOptions, contents_field, is_contents_key, contents_keys.
  cbv zeta. simpl fst. simpl existsb.
  repeat rewrite own_assign_defined.
  destruct (is_undefined (read options "summary")) eqn:Hs.
  - repeat rewrite own_assign_defined.
    repeat (key_case k;
            [cbn [andb orb negb];
             repeat rewrite <- read_own;
             repeat match goal with
                    | |- context [is_undefined (read options ?s)] =>
                        destruct (is_undefined (read options s)) eqn:?
                    end;
             try reflexivity; try discriminate | ]).
    all: match goal with
         | |- context [own _ (if ?c then _ else _)] => destruct c
         end; simpl;
         repeat match goal with
                | E : text_eqb _ _ = false |- _ => rewrite E; clear E
                end; reflexivity.
  - rewrite own_set_prop. repeat rewrite own_assign_defined.
    repeat (key_case k;
            [cbn [andb orb negb];
             repeat rewrite <- read_own;
             repeat match goal with
                    | |- context [is_undefined (read options ?s)] =>
                        destruct (is_undefined (read options s)) eqn:?
                    end;
             try reflexivity; try discriminate | ]).
    all: match goal with
         | |- context [own _ (if ?c then _ else _)] => destruct c
         end; simpl;
         repeat match goal with
                | E : text_eqb _ _ = false |- _ => rewrite E; clear E
                end; reflexivity.
Qed.

End ContentsProperties.

Section BuilderProperties.

Variable world : Type.
Variable response_value : Type.
Variable request :
  jstring -> jstring -> value -> world -> promise response_value * world.
Variable isZodSchema : value -> bool.
Variable zodToJsonSchema : value -> value.

Lemma summary_option_defined s :
  is_undefined s = false ->
  is_undefined (summary_option isZodSchema zodToJsonSchema s) = false.
Proof.
  intros H. unfold summary_option. destruct s; try exact H.
  destruct (own (lit "schema") props) as [schema|]; [|reflexivity].
  destruct (vtruthy schema && isZodSchema schema); reflexivity.
Qed.

Lemma contents_field_cases options k v :
  contents_field (summary_option isZodSchema zodToJsonSchema) options k = Some v ->
  is_contents_key k = true /\ is_undefined v = false.
Proof.
  unfold contents_field.
  destruct (text_eqb k (lit "text")) eqn:E1.
  - apply text_eqb_eq in E1. subst k. intros H. split; [reflexivity|].
    destruct (is_undefined (read options "text")) eqn:Ht.
    + destruct (_ && _ && _); inversion H. reflexivity.
    + inversion H. subst v. exact Ht.
  - destruct (text_eqb k (lit "summary")) eqn:E2.
    + apply text_eqb_eq in E2. subst k. intros H. split; [reflexivity|].
      destruct (is_undefined (read options "summary")) eqn:Hs; inversion H.
      now apply summary_option_defined.
    + destruct (is_contents_key k); [|discriminate].
      destruct (own k options) as [w|]; [|discriminate].
      destruct (is_undefined w) eqn:Hw; [discriminate|].
      intros H. inversion H. subst. auto.
Qed.

(** X3. [extractContentsOptions] splits the options in two.  The rest holds
    exactly the options that are not among the ten contents options, each
    with its value; the contents hold contents options only, and never a
    value that is [undefined]. *)
Theorem extractContentsOptions_partition options k :
  let contentsOptions :=
    fst (extractContentsOptions isZodSchema zodToJsonSchema options) in
  let restOptions :=
    snd (extractContentsOptions isZodSchema zodToJsonSchema options) in
  own k restOptions = (if is_contents_key k then None else own k options)
  /\ (forall v, own k contentsOptions = Some v ->
                is_contents_key k = true /\ is_undefined v = false).
Proof.
  split.
  - exact (own_omit k contents_keys options).
  - intros v. rewrite own_extracted_contents. apply contents_field_cases.
Qed.

(** X4. The contents [extractContentsOptions] builds.  [text] is the given
    text when there is one, and [true] by default exactly when neither
    [text] nor [summary], [highlights] or [extras] is given; [summary] is the
    given summary, a Zod schema in it converted; each of the eight other
    contents options is taken over when it is given. *)
Theorem extractContentsOptions_contents options :
  let contentsOptions :=
    fst (extractContentsOptions isZodSchema zodToJsonSchema options) in
  own (lit "text") contentsOptions
  = (if given options "text" then Some (read options "text")
     else if given options "summary" || given options "highlights" || given options "extras"
          then None else Some (VBool true))
  /\ own (lit "summary") contentsOptions
     = (if given options "summary"
        then Some (summary_option isZodSchema zodToJsonSchema
                     (read options "summary"))
        else None)
  /\ (forall k,
        In k ["highlights"; "subpages"; "subpageTarget"; "extras";
              "livecrawl"; "livecrawlTimeout"; "maxAgeHours"; "context"]%string ->
        own (lit k) contentsOptions
        = if given options k then Some (read options k) else None).
Proof.
  intros contentsOptions. unfold contentsOptions, given.
  split; [|split].
  - rewrite own_extracted_contents. unfold contents_field. simpl.
    destruct (is_undefined (read options "text")); [|reflexivity].
    destruct (is_undefined (read options "summary")),
             (is_undefined (read options "highlights")),
             (is_undefined (read options "extras")); reflexivity.
  - rewrite own_extracted_contents. unfold contents_field. simpl.
    destruct (is_undefined (read options "summary")); reflexivity.
  - intros k Hk. rewrite own_extracted_contents.
    simpl in Hk.
    repeat (destruct Hk as [<-|Hk];
            [unfold contents_field; simpl; unfold read;
             match goal with
             | |- context [own ?key options] => destruct (own key options) as [v|]
             end;
             [destruct (is_undefined v)|]; reflexivity | ]).
    contradiction.
Qed.

(** X5. The conversion of a summary touches the schema only: when the
    summary is an object whose [schema] is a Zod schema, the summary sent
    holds the converted schema and every other property as it was; any other
    summary is sent as it is. *)
Theorem summary_option_schema summary :
  match summary with
  | VObj s =>
      match own (lit "schema") s with
      | Some schema =>
          if vtruthy schema && isZodSchema schema then
            exists s',
              summary_option isZodSchema zodToJsonSchema summary = VObj s'
              /\ forall k,
                   own k s'
                   = if text_eqb k (lit "schema")
                     then Some (zodToJsonSchema schema) else own k s
          else summary_option isZodSchema zodToJsonSchema summary = summary
      | None => summary_option isZodSchema zodToJsonSchema summary = summary
      end
  | _ => summary_option isZodSchema zodToJsonSchema summary = summary
  end.
Proof.
  destruct summary as [| | | | | |s|]; try reflexivity.
  unfold summary_option.
  destruct (own (lit "schema") s) as [schema|] eqn:E; [|reflexivity].
  destruct (vtruthy schema && isZodSchema schema); [|reflexivity].
  eexists. split; [reflexivity|]. intros k.
  rewrite own_set_prop, own_spread. simpl.
  destruct (text_eqb k (lit "schema")); [reflexivity|].
  destruct (own k s); reflexivity.
Qed.

(** X6. The deprecated calls send what their replacements send, on the
    migrations their documentation gives: without options; with a [text]
    option against the same option under [contents]; with a [summary]
    option that needs no conversion against the same under [contents]. *)
Theorem deprecated_calls_migrate arg w :
  searchAndContents request isZodSchema zodToJsonSchema arg None w
  = search request arg None w
  /\ findSimilarAndContents request isZodSchema zodToJsonSchema arg None w
     = findSimilar request arg None w
  /\ (forall t,
        is_undefined t = false ->
        searchAndContents request isZodSchema zodToJsonSchema arg
          (Some [(lit "text", t)]) w
        = search request arg (Some [(lit "contents", VObj [(lit "text", t)])]) w
        /\ findSimilarAndContents request isZodSchema zodToJsonSchema arg
             (Some [(lit "text", t)]) w
           = findSimilar request arg
               (Some [(lit "contents", VObj [(lit "text", t)])]) w)
  /\ (forall s,
        is_undefined s = false ->
        summary_option isZodSchema zodToJsonSchema s = s ->
        searchAndContents request isZodSchema zodToJsonSchema arg
          (Some [(lit "summary", s)]) w
        = search request arg (Some [(lit "contents", VObj [(lit "summary", s)])]) w
        /\ findSimilarAndContents request isZodSchema zodToJsonSchema arg
             (Some [(lit "summary", s)]) w
           = findSimilar request arg
               (Some [(lit "contents", VObj [(lit "summary", s)])]) w).
Proof.
  split; [reflexivity|]. split; [reflexivity|]. split.
  - intros t Ht.
    unfold searchAndContents, findSimilarAndContents, contents_and_rest,
      extractContentsOptions, assign_defined.
    repeat match goal with
           | |- context [read [(?k, ?v)] ?s] =>
               let r := eval vm_compute in (read [(k, v)] s) in
               change (read [(k, v)] s) with r
           end.
    rewrite Ht. split; reflexivity.
  - intros s Hs Hconv.
    unfold searchAndContents, findSimilarAndContents, contents_and_rest,
      extractContentsOptions, assign_defined.
    repeat match goal with
           | |- context [read [(?k, ?v)] ?s] =>
               let r := eval vm_compute in (read [(k, v)] s) in
               change (read [(k, v)] s) with r
           end.
    rewrite Hs, Hconv. split; reflexivity.
Qed.

End BuilderProperties.

Section ContentsCallProperties.

Variable world : Type.
Variable response_value : Type.
Variable request :
  jstring -> jstring -> value -> world -> promise response_value * world.

Lemma map_result_url_of_throws xs r :
  In r xs -> r = VNull \/ r = VUndefined ->
  map_result url_of xs = Throw TypeError.
Proof.
  induction xs as [|x xs IH]; simpl; [tauto|].
  intros [->|Hin] Hr.
  - destruct Hr as [-> | ->]; reflexivity.
  - destruct (url_of x) as [u|e] eqn:E; simpl.
    + rewrite (IH Hin Hr). reflexivity.
    + destruct x; try discriminate; simpl in E; congruence.
Qed.

Lemma map_result_url_of_objects xs :
  Forall (fun r => is_object r = true) xs ->
  map_result url_of xs = Ok (map (fun r => member r "url") xs).
Proof.
  induction 1 as [|x xs Hx _ IH]; simpl; [reflexivity|].
  destruct x; try discriminate. simpl. rewrite IH. reflexivity.
Qed.

(** X7. [getContents] asks for nothing when it is given no url: without
    urls, with the empty string or with an empty array it rejects with the
    [BadRequest] error, and with an array of results that holds [null] or
    [undefined] it rejects with a [TypeError]; the world is left as it
    was. *)
Theorem getContents_without_urls options w :
  (forall urls,
     In urls [NoUrls; OneUrl []; ManyUrls []] ->
     getContents request urls options w
     = (Rejected (ExaErr (mkExaError must_provide_url HttpStatusCode.BadRequest
                            None None)), w))
  /\ (forall x xs r,
        (forall s, x <> VStr s) ->
        In r (x :: xs) -> r = VNull \/ r = VUndefined ->
        getContents request (ManyUrls (x :: xs)) options w
        = (Rejected TypeError, w)).
Proof.
  split.
  - intros urls [<-|[<-|[<-|[]]]]; reflexivity.
  - intros x xs r Hx Hin Hr. unfold getContents. simpl no_urls.
    assert (E : requestUrls (ManyUrls (x :: xs)) = Throw TypeError).
    { unfold requestUrls.
      destruct x; try (exfalso; eapply Hx; reflexivity);
        exact (map_result_url_of_throws _ Hin Hr). }
    rewrite E. reflexivity.
Qed.

(** What [getContents] sends under key [k] for the urls [us]. *)
Lemma getContents_sends urls us options w :
  no_urls urls = false ->
  requestUrls urls = Ok us ->
  exists body,
    getContents request urls options w
    = request (lit "/contents") (lit "POST") (VObj body) w
    /\ forall k,
         own k body
         = match option_own k options with
           | Some v => Some v
           | None => if text_eqb k (lit "urls") then Some (VArr us) else None
           end.
Proof.
  intros Hn Hu. unfold getContents. rewrite Hn, Hu.
  eexists. split; [reflexivity|]. intros k.
  rewrite own_spread_options. simpl.
  destruct (option_own k options); reflexivity.
Qed.

(** X8. The urls [getContents] sends: a single url as an array of one; an
    array that starts with a string as it is; an array of result objects as
    the [url] of each, in order.  Every option is sent beside them, and an
    option named [urls] takes their place. *)
Theorem getContents_urls options w :
  let sends urls us :=
    exists body,
      getContents request urls options w
      = request (lit "/contents") (lit "POST") (VObj body) w
      /\ forall k,
           own k body
           = match option_own k options with
             | Some v => Some v
             | None => if text_eqb k (lit "urls") then Some (VArr us) else None
             end in
  (forall c s, sends (OneUrl (c :: s)) [VStr (c :: s)])
  /\ (forall u xs, sends (ManyUrls (VStr u :: xs)) (VStr u :: xs))
  /\ (forall x xs,
        Forall (fun r => is_object r = true) (x :: xs) ->
        sends (ManyUrls (x :: xs)) (map (fun r => member r "url") (x :: xs))).
Proof.
  intros sends. unfold sends. split; [|split].
  - intros c s. now apply getContents_sends.
  - intros u xs. now apply getContents_sends.
  - intros x xs H. apply getContents_sends; [reflexivity|].
    unfold requestUrls. inversion H; subst.
    destruct x; try discriminate.
    exact (map_result_url_of_objects H).
Qed.

Variable isZodSchema : value -> bool.
Variable zodToJsonSchema : value -> value.

(** X9. The non-streaming [answer] sends [stream: false] whatever the
    options, and reads five of them only: two options that agree on [text],
    [model], [systemPrompt], [outputSchema] and [userLocation] make the same
    request. *)
Theorem answer_reads_five_options query options options' w :
  vtruthy (opt_prop options "stream") = false ->
  vtruthy (opt_prop options' "stream") = false ->
  (forall k,
     In k ["text"; "model"; "systemPrompt"; "outputSchema"; "userLocation"]%string ->
     opt_prop options k = opt_prop options' k) ->
  answer request isZodSchema zodToJsonSchema query options w
  = answer request isZodSchema zodToJsonSchema query options' w
  /\ exists body,
       answer request isZodSchema zodToJsonSchema query options w
       = request (lit "/answer") (lit "POST") (VObj body) w
       /\ own (lit "stream") body = Some (VBool false)
       /\ own (lit "query") body = Some query.
Proof.
  intros H H' Hk. unfold answer. rewrite H, H'.
  rewrite <- !Hk by (simpl; tauto).
  split; [reflexivity|]. eexists. split; [reflexivity|]. split; reflexivity.
Qed.

End ContentsCallProperties.

(** ** The exchange with the API *)

Section RequestProperties.

Variable world : Type.
Variable fetchImpl : FetchInit -> world -> promise HttpResponse * world.
Variable JSON_stringify : value -> jstring.
Variable String_ : value -> jstring.
Variable URLSearchParams_toString : list (jstring * jstring) -> jstring.
Variable String_json : json -> jstring.
Variable greater_than_zero : jsval -> bool.

Let run := Exa_request fetchImpl JSON_stringify String_
             URLSearchParams_toString String_json greater_than_zero.
Let init := request_init JSON_stringify String_ URLSearchParams_toString.

(** X10. A response that is not [ok] and whose body is a JSON object is
    thrown as an [ExaError] that always carries the status of the response,
    whatever [statusCode] the body names; its path is the one of the body,
    or the endpoint when the body has none, its timestamp the one of the
    body or the time of the call.  The message is the [error] of the body
    and its [message] joined by a full stop and a space; a body without
    [error] speaks of an unknown error. *)
Theorem request_http_error client now endpoint method body params extra w r w' props :
  fetchImpl (init client endpoint method body params extra) w = (Fulfilled r, w') ->
  ok (http r) = false ->
  JSON_parse (body_text (http r)) = Some (JObj props) ->
  exists message,
    run client now endpoint method body params extra w
    = (Failed (HttpError message (status (http r))
                 (or_default (lookup (lit "timestamp") props) (JStr now))
                 (or_default (lookup (lit "path") props) (JStr endpoint))), w')
    /\ (forall e m,
          lookup (lit "error") props = Some (JStr e) -> e <> [] ->
          lookup (lit "message") props = Some (JStr m) -> m <> [] ->
          message = JStr (e ++ lit ". " ++ m))
    /\ (forall e,
          lookup (lit "error") props = Some (JStr e) -> e <> [] ->
          truthy (lookup (lit "message") props) = false ->
          message = JStr e)
    /\ (forall m,
          truthy (lookup (lit "error") props) = false ->
          lookup (lit "message") props = Some (JStr m) -> m <> [] ->
          message = JStr (lit "Unknown error. " ++ m))
    /\ (truthy (lookup (lit "error") props) = false ->
        truthy (lookup (lit "message") props) = false ->
        message = unknown_error_message).
Proof.
  intros Hf Hok Hj. unfold run, Exa_request. fold init. rewrite Hf.
  unfold on_response. rewrite Hok, Hj. simpl negb. cbv iota.
  unfold error_of_body. eexists. split; [reflexivity|].
  split; [|split; [|split]].
  - intros e m He Hne Hm Hnm. rewrite He, Hm. simpl.
    destruct e; [congruence|]. destruct m; [congruence|]. reflexivity.
  - intros e He Hne Hm. rewrite He, Hm. simpl.
    destruct e; [congruence|]. reflexivity.
  - intros m He Hm Hnm. rewrite Hm. simpl.
    destruct m; [congruence|].
    unfold or_default. destruct (lookup (lit "error") props) as [j|];
      [rewrite He|]; reflexivity.
  - intros He Hm. rewrite Hm.
    unfold or_default. destruct (lookup (lit "error") props) as [j|];
      [rewrite He|]; reflexivity.
Qed.

(** X11. A response that is not [ok] and whose body is no JSON object is not
    reported as an [ExaError]: a body that is not JSON at all makes the call
    reject with the [SyntaxError] of [response.json()], a body that is
    [null] or a bare string, number or boolean with a [TypeError]; the
    status of the response is lost.  An array gives the unknown error. *)
Theorem request_error_body_not_an_object
    client now endpoint method body params extra w r w' :
  fetchImpl (init client endpoint method body params extra) w = (Fulfilled r, w') ->
  ok (http r) = false ->
  (JSON_parse (body_text (http r)) = None ->
   run client now endpoint method body params extra w = (Failed SyntaxError, w'))
  /\ (forall j,
        JSON_parse (body_text (http r)) = Some j ->
        (forall xs, j <> JArr xs) -> (forall props, j <> JObj props) ->
        run client now endpoint method body params extra w
        = (Failed (Thrown TypeError), w'))
  /\ (forall xs,
        JSON_parse (body_text (http r)) = Some (JArr xs) ->
        run client now endpoint method body params extra w
        = (Failed (HttpError unknown_error_message (status (http r))
                     (JStr now) (JStr endpoint)), w')).
Proof.
  intros Hf Hok. unfold run, Exa_request. fold init. rewrite Hf.
  unfold on_response. rewrite Hok. simpl negb. cbv iota.
  split; [|split].
  - intros ->. reflexivity.
  - intros j -> Ha Ho. destruct j; try reflexivity.
    + exfalso. eapply Ha. reflexivity.
    + exfalso. eapply Ho. reflexivity.
  - intros xs ->. reflexivity.
Qed.

End RequestProperties.

(** ** The constructor of the client *)


(** ** Sources, pulled *)

Section SourceProperties.

Variable String_ : value -> jstring.
Variables A S : Type.
Variable gen : AsyncGenerator A S.

Local Unset Implicit Arguments.

Lemma pull_yields items : forall s s1 log n,
  yields gen s items s1 ->
  pull String_ gen (List.length items + n) s log
  = let '(more, e, s2, log2) :=
      pull String_ gen n s1 (log ++ repeat CallNext (List.length items)) in
    (items ++ more, e, s2, log2).
Proof.
  induction items as [|a items IH]; intros s s1 log n; simpl.
  - intros ->. rewrite app_nil_r.
    destruct (pull String_ gen n s log) as [[[more e] s2] log2]. reflexivity.
  - intros [s' [Hn Hy]]. rewrite Hn. simpl.
    rewrite (IH _ _ _ _ Hy).
    replace ((log ++ [CallNext]) ++ repeat CallNext (List.length items))
      with (log ++ CallNext :: repeat CallNext (List.length items))
      by now rewrite <- app_assoc.
    destruct (pull String_ gen n s1 _) as [[[more e] s2] log2]. reflexivity.
Qed.

Lemma consume_enough items s0 s1 c :
  yields gen s0 items s1 ->
  budget c = List.length items ->
  consume String_ gen s0 c
  = (match at_budget c with
     | Enough => Success items
     | DownstreamFails e => Failure (Fail e)
     | TornDown => Failure Interrupt
     end, s1, repeat CallNext (List.length items)).
Proof.
  intros Hy Hb. unfold consume. rewrite Hb.
  rewrite <- (Nat.add_0_r (List.length items)) at 1.
  rewrite (pull_yields _ _ _ _ 0 Hy). simpl.
  now rewrite app_nil_r, Nat.eqb_refl.
Qed.

Lemma consume_last items s0 s1 s2 c r :
  yields gen s0 items s1 ->
  next gen s1 = (r, s2) ->
  (forall a, r <> Resolves (IterValue a)) ->
  List.length items < budget c ->
  consume String_ gen s0 c
  = (match r with
     | Rejects reason => Failure (Fail (toExaError String_ reason))
     | _ => Success items
     end, s2, repeat CallNext (Datatypes.S (List.length items))).
Proof.
  intros Hy Hn Hr Hlt. unfold consume.
  replace (budget c)
    with (List.length items + Datatypes.S (budget c - Datatypes.S (List.length items)))
    at 1 by lia.
  rewrite (pull_yields _ _ _ _ _ Hy). cbn [pull]. rewrite Hn.
  change ([] ++ repeat CallNext (List.length items))
    with (repeat CallNext (List.length items)).
  assert (Hlog : repeat CallNext (List.length items) ++ [CallNext]
                 = repeat CallNext (Datatypes.S (List.length items))).
  { rewrite <- repeat_cons. reflexivity. }
  destruct r as [[a|]|reason]; simpl.
  - exfalso. eapply Hr. reflexivity.
  - rewrite Hlog, app_nil_r.
    destruct (Nat.eqb_spec (List.length items) (budget c)); [lia | reflexivity].
  - now rewrite Hlog.
Qed.

Lemma release_quiet s log :
  quiet_return gen ->
  fst (fst (release gen s log)) = Resolves tt.
Proof.
  unfold quiet_return, release. destruct (return_ gen) as [ret|]; [|reflexivity].
  intros H. specialize (H s). destruct (ret s). exact H.
Qed.

(** A release that resolves, or a source without one, leaves the exit of the
    stream as the consumer made it. *)
Lemma quiet_return_exit library_releases s0 c :
  quiet_return gen ->
  exit (streamFromAsyncGenerator String_ gen library_releases s0 c)
  = fst (fst (consume String_ gen s0 c)).
Proof.
  intros Hq. unfold streamFromAsyncGenerator.
  destruct (consume String_ gen s0 c) as [[main s1] log1]. simpl fst.
  destruct library_releases.
  - pose proof (release_quiet s1 log1 Hq) as R1.
    destruct (release gen s1 log1) as [[r1 s2] log2]. simpl in R1. subst r1.
    pose proof (release_quiet s2 log2 Hq) as R2.
    destruct (release gen s2 log2) as [[r2 s3] log3]. simpl in R2. subst r2.
    destruct main; reflexivity.
  - pose proof (release_quiet s1 log1 Hq) as R1.
    destruct (release gen s1 log1) as [[r1 s2] log2]. simpl in R1. subst r1.
    destruct main; reflexivity.
Qed.

(** X13. The adapted stream hands on what the source yields, in order and
    nothing else: a consumer that takes as many items as the source yields
    next gets exactly these, and a consumer that asks for more gets the
    items the source yields before its [next] reports [done]. *)
Theorem adapter_forwards_in_order library_releases items s0 s1 :
  quiet_return gen ->
  yields gen s0 items s1 ->
  exit (streamFromAsyncGenerator String_ gen library_releases s0
          (take (List.length items)))
  = Success items
  /\ (forall s2 c,
        next gen s1 = (Resolves IterDone, s2) ->
        List.length items < budget c ->
        exit (streamFromAsyncGenerator String_ gen library_releases s0 c)
        = Success items).
Proof.
  intros Hq Hy. split.
  - rewrite (quiet_return_exit _ _ _ Hq),
      (consume_enough _ _ _ (take (List.length items)) Hy eq_refl).
    reflexivity.
  - intros s2 c Hn Hlt.
    rewrite (quiet_return_exit _ _ _ Hq),
      (consume_last _ _ _ _ c _ Hy Hn) by (discriminate || assumption).
    reflexivity.
Qed.


(** X15. A source without a [return] is never released: the calls made on
    it are pulls only, and the stream ends as the consumer made it end. *)
Theorem adapter_without_return library_releases s0 c :
  return_ gen = None ->
  let run := streamFromAsyncGenerator String_ gen library_releases s0 c in
  exit run = fst (fst (consume String_ gen s0 c))
  /\ count_returns (calls run) = 0
  /\ calls run = snd (consume String_ gen s0 c).
Proof.
  intros Hret run. unfold run. split.
  - apply quiet_return_exit. unfold quiet_return. now rewrite Hret.
  - unfold streamFromAsyncGenerator.
    destruct (consume_calls String_ gen s0 c) as [n [_ [_ Hc]]].
    destruct (consume String_ gen s0 c) as [[main s1] log1]. simpl in Hc.
    unfold release. rewrite Hret. simpl snd.
    destruct library_releases; simpl; subst log1; split; try reflexivity.
    all: unfold count_returns; induction n; simpl; auto.
Qed.

End SourceProperties.

(** ** What the two consumers look at *)

Local Unset Implicit Arguments.

Lemma stream_lines_payloads l1 : forall l2,
  payloads l1 = payloads l2 -> stream_lines l1 = stream_lines l2.
Proof.
  induction l1 as [|a l1 IH]; intros l2.
  - induction l2 as [|b l2 IH2]; simpl; [reflexivity|].
    destruct (data_payload b) as [s|]; [destruct (JSON_parse s) as [j|]|];
      try exact IH2.
    intros H; discriminate H.
  - simpl.
    destruct (data_payload a) as [s|]; [destruct (JSON_parse s) as [j|]|];
      try exact (IH l2).
    induction l2 as [|b l2 IH2]; simpl; [intros H; discriminate H|].
    destruct (data_payload b) as [s'|]; [destruct (JSON_parse s') as [j'|]|];
      try exact IH2.
    intros H. injection H as -> H. now rewrite (IH _ H).
Qed.

Lemma sse_lines_payloads now l1 : forall l2,
  payloads l1 = payloads l2 -> sse_lines now l1 = sse_lines now l2.
Proof.
  induction l1 as [|a l1 IH]; intros l2.
  - induction l2 as [|b l2 IH2]; simpl; [reflexivity|].
    destruct (data_payload b) as [s|]; [destruct (JSON_parse s) as [j|]|];
      try exact IH2.
    intros H; discriminate H.
  - simpl.
    destruct (data_payload a) as [s|]; [destruct (JSON_parse s) as [j|]|];
      try exact (IH l2).
    induction l2 as [|b l2 IH2]; simpl; [intros H; discriminate H|].
    destruct (data_payload b) as [s'|]; [destruct (JSON_parse s') as [j'|]|];
      try exact IH2.
    intros H. injection H as -> H. now rewrite (IH _ H).
Qed.

Lemma stream_leftover_payloads f1 f2 :
  payloads [f1] = payloads [f2] -> stream_leftover f1 = stream_leftover f2.
Proof.
  rewrite !stream_leftover_payload. simpl.
  destruct (data_payload f1) as [s1|]; [destruct (JSON_parse s1) as [j1|]|];
    (destruct (data_payload f2) as [s2|]; [destruct (JSON_parse s2) as [j2|]|]);
    intros H; try discriminate H; try reflexivity.
  injection H as ->. reflexivity.
Qed.

Lemma streamAnswer_of_lines reads now :
  streamAnswer (ok_response reads) now
  = let '(ys, t) := stream_of_lines (removelast (split_nl (decoded reads)))
                                    (last (split_nl (decoded reads)) []) in
    mkRun ys t 1.
Proof.
  unfold streamAnswer. simpl.
  rewrite stream_loop_lines, reassemble_decoded. reflexivity.
Qed.

(** X16. Both consumers look at the body only through the JSON payloads of
    its [data: ] lines: comments, blank lines, other fields, the end marker
    and payloads that do not parse may come and go between them without
    any effect on what [parseSSEStream] settles with or on what
    [streamAnswer] yields and throws. *)
Theorem consumers_read_payloads reads1 reads2 now :
  payloads (removelast (split_nl (decoded reads1)))
  = payloads (removelast (split_nl (decoded reads2))) ->
  parseSSEStream (ok_response reads1) now
  = parseSSEStream (ok_response reads2) now
  /\ (payloads [last (split_nl (decoded reads1)) []]
      = payloads [last (split_nl (decoded reads2)) []] ->
      streamAnswer (ok_response reads1) now
      = streamAnswer (ok_response reads2) now).
Proof.
  intros H. split.
  - rewrite !parseSSEStream_lines. unfold sse_of_lines.
    now rewrite (sse_lines_payloads now _ _ H).
  - intros Hf. rewrite !streamAnswer_of_lines. unfold stream_of_lines.
    now rewrite (stream_lines_payloads _ _ H), (stream_leftover_payloads _ _ Hf).
Qed.

(** ** What the consumers throw *)


Lemma citation_of_throws c e : citation_of c = Throw e -> e = TypeError.
Proof. destruct c; cbv [citation_of get bind]; congruence. Qed.






(** ** Citations *)

Lemma citation_of_fields c : c <> JNull -> citation_of c = Ok (citation_fields c).
Proof. destruct c; [congruence | reflexivity ..]. Qed.

Lemma map_citation_of cs :
  Forall (fun c => c <> JNull) cs ->
  map_result citation_of cs = Ok (map citation_fields cs).
Proof.
  induction 1 as [|c cs Hc _ IH]; [reflexivity|].
  cbn [map_result map]. now rewrite (citation_of_fields _ Hc), IH.
Qed.

Lemma map_citation_of_null cs :
  In JNull cs -> map_result citation_of cs = Throw TypeError.
Proof.
  induction cs as [|c cs IH]; intros H; [destruct H|].
  cbn [map_result]. destruct H as [->|H]; [reflexivity|].
  destruct (citation_of c) as [x|e] eqn:E; simpl.
  - now rewrite (IH H).
  - now rewrite (citation_of_throws _ _ E).
Qed.

(** X18. The citations of a chunk.  When [citations] is an array,
    [processChunk] copies the six fields [id], [url], [title],
    [publishedDate], [author] and [text] out of every element, in order and
    whatever else an element holds; an element that is no object gives a
    citation of undefined fields, and an element that is [null] makes
    [processChunk] throw a [TypeError]. *)
Theorem processChunk_copies_citations props cs :
  lookup (lit "citations") props = Some (JArr cs) ->
  (Forall (fun c => c <> JNull) cs ->
   exists content,
     processChunk (Some (JObj props))
     = Ok (mkChunk content (Some (map citation_fields cs))))
  /\ (In JNull cs -> processChunk (Some (JObj props)) = Throw TypeError).
Proof.
  intros Hc. destruct (processChunk_object props) as [c ->].
  rewrite Hc. simpl. split.
  - intros H. exists c. now rewrite (map_citation_of _ H).
  - intros H. now rewrite (map_citation_of_null _ H).
Qed.

(** ** The blocking consumer, settled *)

Lemma sse_loop_more now more reads : forall decoder buffer,
  sse_loop now decoder buffer reads = Returned [Reject (stream_ended now)]
  \/ sse_loop now decoder buffer (reads ++ more)
     = sse_loop now decoder buffer reads.
Proof.
  induction reads as [|value reads IH]; intros decoder buffer.
  - left. reflexivity.
  - cbn [sse_loop app].
    destruct (decode decoder value) as [d1 o1].
    destruct (pop (split_nl (buffer ++ o1))) as [lines b1].
    destruct (sse_lines now lines); [apply IH | right; reflexivity ..].
Qed.

(** X19. Once [parseSSEStream] has settled on a line, it reads no further:
    unless it rejected because the body ended, it settles the same way
    whatever follows in the body. *)
Theorem parseSSEStream_settled_reads_no_more reads more now :
  parseSSEStream (ok_response reads) now <> Rejected (stream_ended now) ->
  parseSSEStream (ok_response (reads ++ more)) now
  = parseSSEStream (ok_response reads) now.
Proof.
  unfold parseSSEStream. simpl. unfold sse_executor.
  destruct (sse_loop_more now more reads new_TextDecoder []) as [H|H];
    rewrite H; [|reflexivity].
  intros Hne. exfalso. apply Hne. reflexivity.
Qed.





(** ** The text behind the lines *)

Lemma unsplit_split s :
  unsplit (removelast (split_nl s)) (last (split_nl s) []) = s.
Proof.
  induction s as [|c s IH]; [reflexivity|].
  simpl split_nl. destruct (N.eqb c 10) eqn:Hc.
  - apply N.eqb_eq in Hc. subst c.
    rewrite removelast_cons_ne, last_cons_ne by apply split_nl_not_nil.
    unfold unsplit in *. simpl. now rewrite IH.
  - pose proof (split_nl_not_nil s) as Hne.
    destruct (split_nl s) as [|l ls]; [congruence|].
    destruct ls as [|l' ls].
    + unfold unsplit in *. simpl in *. now rewrite IH.
    + rewrite (removelast_cons_ne (c :: l)), (last_cons_ne (c :: l))
        by discriminate.
      rewrite (removelast_cons_ne l), (last_cons_ne l) in IH by discriminate.
      rewrite <- IH. reflexivity.
Qed.

Lemma split_nl_no_line_feed s :
  Forall (fun l => ~ In 10%N l) (split_nl s).
Proof.
  induction s as [|c s IH]; simpl.
  - constructor; [intros [] | constructor].
  - destruct (N.eqb c 10) eqn:Hc.
    + constructor; [intros [] | exact IH].
    + apply N.eqb_neq in Hc.
      destruct (split_nl s) as [|l ls].
      * constructor; [|constructor]. intros [H|[]]. congruence.
      * inversion IH as [|? ? Hl Hls]; subst. constructor; [|exact Hls].
        intros [H|H]; [congruence | exact (Hl H)].
Qed.

(** X21. The reassembler loses nothing and cuts at line feeds only: the
    complete lines, each followed by a line feed, and the text left in the
    buffer make up the decoded body again, and neither a line nor the
    buffer holds a line feed. *)
Theorem reassemble_loses_nothing reads :
  let '(lines, final) := reassemble new_TextDecoder [] reads in
  unsplit lines final = decoded reads
  /\ Forall (fun l => ~ In 10%N l) (lines ++ [final]).
Proof.
  rewrite reassemble_decoded. unfold pop. split.
  - apply unsplit_split.
  - rewrite <- app_removelast_last by apply split_nl_not_nil.
    apply split_nl_no_line_feed.
Qed.

(** ** The requests *)

Section RequestsProperties.

Variable world : Type.
Variable response_value : Type.
Variable request :
  jstring -> jstring -> value -> world -> promise response_value * world.
Variable JSON_stringify : value -> jstring.
Variable String_ : value -> jstring.
Variable URLSearchParams_toString : list (jstring * jstring) -> jstring.
Variable isZodSchema : value -> bool.
Variable zodToJsonSchema : value -> value.

(** X22. [streamAnswer] always asks for a stream: its body holds
    [stream: true] whatever the options say, and in every other field it is
    the body [answer] sends for the same query and options. *)
Theorem streamAnswer_sends query options w :
  exists body,
    streamAnswer_body isZodSchema zodToJsonSchema query options = VObj body
    /\ own (lit "stream") body = Some (VBool true)
    /\ (vtruthy (opt_prop options "stream") = false ->
        exists sent,
          answer request isZodSchema zodToJsonSchema query options w
          = request (lit "/answer") (lit "POST") (VObj sent) w
          /\ forall k,
               text_eqb k (lit "stream") = false -> own k body = own k sent).
Proof.
  eexists. split; [reflexivity|]. split; [reflexivity|].
  intros Hs. unfold answer. rewrite Hs.
  eexists. split; [reflexivity|].
  intros k Hk. simpl in *. rewrite Hk.
  destruct (text_eqb k _); [reflexivity|].
  destruct (text_eqb k _); reflexivity.
Qed.

(** X23. The headers [request] sends are the client's, overridden name by
    name by the headers given to the call, and a body that is falsy is not
    sent at all. *)
Theorem request_headers_override client endpoint method body params extra :
  let init := request_init JSON_stringify String_ URLSearchParams_toString
                client endpoint method body params extra in
  (forall k,
     own k (fetch_headers init)
     = match option_own k extra with
       | Some v => Some v
       | None => own k (headers client)
       end)
  /\ (vtruthy body = false -> fetch_body init = None)
  /\ (vtruthy body = true -> fetch_body init = Some (JSON_stringify body)).
Proof.
  unfold request_init. simpl. split; [|split].
  - intros k. rewrite own_spread_options, own_spread. simpl.
    destruct (option_own k extra); [reflexivity|].
    destruct (own k (headers client)); reflexivity.
  - intros ->. reflexivity.
  - intros ->. reflexivity.
Qed.

(** X24. [rawRequest] hands to [fetch] what [request] hands to it for the
    same arguments and no headers of the call, but for the query string: an
    empty object of parameters still appends a question mark, which
    [request] leaves out. *)
Theorem rawRequest_as_request client endpoint method body params :
  let raw := rawRequest_init JSON_stringify String_ URLSearchParams_toString
               client endpoint (Some method) body params in
  let init := request_init JSON_stringify String_ URLSearchParams_toString
                client endpoint method body params None in
  fetch_method raw = fetch_method init
  /\ fetch_body raw = fetch_body init
  /\ (forall k, own k (fetch_headers raw) = own k (fetch_headers init))
  /\ match params with
     | Some p =>
         match entries p with
         | [] => fetch_url raw
                 = fetch_url init ++ lit "?" ++ URLSearchParams_toString []
         | _ => fetch_url raw = fetch_url init
         end
     | None => fetch_url raw = fetch_url init
     end.
Proof.
  unfold rawRequest_init, request_init, rawRequest_url, request_url. simpl.
  split; [reflexivity|]. split; [reflexivity|]. split.
  - intros k. rewrite own_spread. simpl.
    destruct (own k (headers client)); reflexivity.
  - destruct params as [p|]; [|reflexivity].
    unfold search_params. destruct (entries p); [|reflexivity].
    simpl. now rewrite <- app_assoc.
Qed.

End RequestsProperties.

(** ** The properties at work *)

Lemma extractContentsOptions_partition_witness :
  let options := [(lit "numResults", VNum (num 5)); (lit "text", VBool true)] in
  let e := extractContentsOptions (fun _ => false) (fun v => v) options in
  own (lit "text") (snd e) = None
  /\ own (lit "numResults") (snd e) = Some (VNum (num 5))
  /\ is_contents_key (lit "text") = true.
Proof.
  intros options e. split; [|split].
  - exact (proj1 (extractContentsOptions_partition
                    (fun _ => false) (fun v => v) options (lit "text"))).
  - exact (proj1 (extractContentsOptions_partition
                    (fun _ => false) (fun v => v) options (lit "numResults"))).
  - exact (proj1 (proj2 (extractContentsOptions_partition
                           (fun _ => false) (fun v => v) options (lit "text"))
                    (VBool true) eq_refl)).
Defined.

Lemma extractContentsOptions_contents_witness :
  let options := [(lit "highlights", VBool true); (lit "numResults", VNum (num 5))] in
  let c := fst (extractContentsOptions (fun _ => false) (fun v => v) options) in
  own (lit "text") c = None
  /\ own (lit "highlights") c = Some (VBool true).
Proof.
  intros options c. split.
  - exact (proj1 (extractContentsOptions_contents
                    (fun _ => false) (fun v => v) options)).
  - exact (proj2 (proj2 (extractContentsOptions_contents
                           (fun _ => false) (fun v => v) options))
             "highlights"%string (or_introl eq_refl)).
Defined.

Lemma deprecated_calls_migrate_witness :
  searchAndContents recording_request (fun _ => false) (fun v => v)
    (VStr (lit "hottest AI startups")) (Some [(lit "text", VBool true)]) []
  = search recording_request (VStr (lit "hottest AI startups"))
      (Some [(lit "contents", VObj [(lit "text", VBool true)])]) [].
Proof.
  exact (proj1 (proj1 (proj2 (proj2
           (deprecated_calls_migrate recording_request
              (fun _ => false) (fun v => v)
              (VStr (lit "hottest AI startups")) [])))
           (VBool true) eq_refl)).
Defined.

Lemma getContents_without_urls_witness :
  getContents recording_request (ManyUrls []) None []
  = (Rejected (ExaErr (mkExaError must_provide_url (num 400) None None)), [])
  /\ getContents recording_request
       (ManyUrls [VObj [(lit "url", VStr (lit "https://exa.ai"))]; VNull]) None []
     = (Rejected TypeError, []).
Proof.
  split.
  - exact (proj1 (getContents_without_urls recording_request None [])
             (ManyUrls []) (or_intror (or_intror (or_introl eq_refl)))).
  - refine (proj2 (getContents_without_urls recording_request None [])
              (VObj [(lit "url", VStr (lit "https://exa.ai"))]) [VNull] VNull _
              (or_intror (or_introl eq_refl)) (or_introl eq_refl)).
    intros s; discriminate.
Defined.

Lemma getContents_urls_witness :
  exists body,
    getContents recording_request
      (ManyUrls [VObj [(lit "url", VStr (lit "https://exa.ai"));
                       (lit "title", VStr (lit "Exa"))]])
      (Some [(lit "text", VBool true)]) []
    = recording_request (lit "/contents") (lit "POST") (VObj body) []
    /\ own (lit "urls") body = Some (VArr [VStr (lit "https://exa.ai")])
    /\ own (lit "text") body = Some (VBool true).
Proof.
  assert (HF : Forall (fun r => is_object r = true)
                 [VObj [(lit "url", VStr (lit "https://exa.ai"));
                        (lit "title", VStr (lit "Exa"))]])
    by (repeat constructor).
  destruct (proj2 (proj2 (getContents_urls recording_request
                            (Some [(lit "text", VBool true)]) []))
              _ _ HF) as [body [H Hk]].
  exists body. split; [exact H|]. split.
  - exact (Hk (lit "urls")).
  - exact (Hk (lit "text")).
Defined.

Lemma answer_reads_five_options_witness :
  let options := VObj [(lit "text", VBool true); (lit "numResults", VNum (num 3))] in
  let options' := VObj [(lit "text", VBool true)] in
  answer recording_request (fun _ => false) (fun v => v)
    (VStr (lit "What is AI?")) options []
  = answer recording_request (fun _ => false) (fun v => v)
      (VStr (lit "What is AI?")) options' [].
Proof.
  intros options options'.
  refine (proj1 (answer_reads_five_options recording_request
                   (fun _ => false) (fun v => v) (VStr (lit "What is AI?"))
                   options options' [] eq_refl eq_refl _)).
  intros k [<-|[<-|[<-|[<-|[<-|[]]]]]]; reflexivity.
Defined.

Lemma request_http_error_witness :
  let r := mkHttpResponse
             (mkResponse false (num 404)
                (json_text "{'error':'Not found','message':'No such id','statusCode':400}")
                None)
             None in
  let fetchImpl := fun (_ : FetchInit) (w : unit) => (Fulfilled r, w) in
  fst (Exa_request fetchImpl (fun _ => []) (fun _ => []) (fun _ => [])
         (fun _ => []) (fun _ => false)
         (mkExa default_baseURL []) (lit "2025-01-01T00:00:00.000Z")
         (lit "/search") (lit "POST") VUndefined None None tt)
  = Failed (HttpError (JStr (lit "Not found. No such id")) (num 404)
              (JStr (lit "2025-01-01T00:00:00.000Z")) (JStr (lit "/search"))).
Proof.
  intros r fetchImpl.
  destruct (@request_http_error unit fetchImpl (fun _ => []) (fun _ => [])
              (fun _ => []) (fun _ => []) (fun _ => false)
              (mkExa default_baseURL []) (lit "2025-01-01T00:00:00.000Z")
              (lit "/search") (lit "POST") VUndefined None None tt r tt
              [(lit "error", JStr (lit "Not found"));
               (lit "message", JStr (lit "No such id"));
               (lit "statusCode", JNum (num 400))]
              eq_refl eq_refl eq_refl) as [message [H [Hm _]]].
  rewrite H.
  rewrite (Hm (lit "Not found") (lit "No such id") eq_refl
              ltac:(discriminate) eq_refl ltac:(discriminate)).
  reflexivity.
Defined.

Lemma request_error_body_not_an_object_witness :
  let r := mkHttpResponse
             (mkResponse false (num 502) (lit "<html>Bad Gateway</html>") None)
             None in
  let fetchImpl := fun (_ : FetchInit) (w : unit) => (Fulfilled r, w) in
  Exa_request fetchImpl (fun _ => []) (fun _ => []) (fun _ => [])
    (fun _ => []) (fun _ => false)
    (mkExa default_baseURL []) [] (lit "/search") (lit "POST")
    VUndefined None None tt
  = (Failed SyntaxError, tt).
Proof.
  intros r fetchImpl.
  exact (proj1 (@request_error_body_not_an_object unit fetchImpl
                  (fun _ => []) (fun _ => []) (fun _ => []) (fun _ => [])
                  (fun _ => false) (mkExa default_baseURL []) []
                  (lit "/search") (lit "POST") VUndefined None None tt r tt
                  eq_refl eq_refl) eq_refl).
Defined.

Lemma adapter_forwards_in_order_witness :
  let gen := mock_generator [1; 2; 3] (Resolves tt) in
  exit (streamFromAsyncGenerator (fun _ => []) gen true (0, 0) (take 2))
  = Success [1; 2]
  /\ exit (streamFromAsyncGenerator (fun _ => []) gen true (0, 0) (take 7))
     = Success [1; 2; 3].
Proof.
  intros gen. split.
  - refine (proj1 (@adapter_forwards_in_order (fun _ => []) _ _ gen true
                     [1; 2] (0, 0) (2, 0) _ _)).
    + exact (fun s => match s with (_, _) => eq_refl end).
    + exists (1, 0). split; [reflexivity|].
      exists (2, 0). split; reflexivity.
  - refine (proj2 (@adapter_forwards_in_order (fun _ => []) _ _ gen true
                     [1; 2; 3] (0, 0) (3, 0) _ _)
              (3, 0) (take 7) eq_refl _).
    + exact (fun s => match s with (_, _) => eq_refl end).
    + exists (1, 0). split; [reflexivity|].
      exists (2, 0). split; [reflexivity|].
      exists (3, 0). split; reflexivity.
    + simpl. lia.
Defined.


Lemma adapter_without_return_witness :
  let gen :=
    mkGenerator
      (fun s : nat =>
         match s with
         | 0 => (Resolves (IterValue 1), 1)
         | _ => (Resolves (@IterDone nat), s)
         end)
      None in
  let run := streamFromAsyncGenerator (fun _ => []) gen true 0 (take 5) in
  exit run = Success [1]
  /\ count_returns (calls run) = 0
  /\ calls run = [CallNext; CallNext].
Proof.
  intros gen run.
  exact (@adapter_without_return (fun _ => []) _ _ gen true 0 (take 5) eq_refl).
Defined.

Lemma consumers_read_payloads_witness :
  let noisy :=
    [transcript "data: {'tag':'progress'}|: ping||event: x|data: {oops|data: [DONE]|"] in
  let plain := [transcript "data: {'tag':'progress'}|"] in
  parseSSEStream (ok_response noisy) [] = parseSSEStream (ok_response plain) []
  /\ streamAnswer (ok_response noisy) [] = streamAnswer (ok_response plain) [].
Proof.
  intros noisy plain.
  assert (H : payloads (removelast (split_nl (decoded noisy)))
              = payloads (removelast (split_nl (decoded plain))))
    by (vm_compute; reflexivity).
  destruct (consumers_read_payloads noisy plain [] H) as [H1 H2].
  split; [exact H1|]. apply H2. vm_compute. reflexivity.
Defined.

Lemma processChunk_copies_citations_witness :
  exists content,
    processChunk
      (Some (JObj [(lit "citations",
                    JArr [JObj [(lit "id", JStr (lit "1"));
                                (lit "url", JStr (lit "https://exa.ai"));
                                (lit "score", JNum (num 1))];
                          JNum (num 7)])]))
    = Ok (mkChunk content
            (Some [mkCitation (Some (JStr (lit "1")))
                     (Some (JStr (lit "https://exa.ai"))) None None None None;
                   mkCitation None None None None None None])).
Proof.
  refine (proj1 (processChunk_copies_citations
                   [(lit "citations",
                     JArr [JObj [(lit "id", JStr (lit "1"));
                                 (lit "url", JStr (lit "https://exa.ai"));
                                 (lit "score", JNum (num 1))];
                           JNum (num 7)])]
                   _ eq_refl) _).
  repeat constructor; discriminate.
Defined.

Lemma parseSSEStream_settled_reads_no_more_witness :
  let reads := [transcript "data: {'tag':'complete','data':{'x':1}}|"] in
  let more := [transcript "data: {'tag':'error','error':{'message':'late'}}|"] in
  parseSSEStream (ok_response (reads ++ more)) []
  = Fulfilled (Some (JObj [(lit "x", JNum (num 1))])).
Proof.
  intros reads more.
  rewrite (parseSSEStream_settled_reads_no_more reads more []).
  - vm_compute. reflexivity.
  - vm_compute. discriminate.
Defined.

Lemma streamAnswer_sends_witness :
  exists body sent,
    streamAnswer_body (fun _ => false) (fun v => v)
      (VStr (lit "What is AI?")) (VObj [(lit "model", VStr (lit "exa-pro"))])
    = VObj body
    /\ answer recording_request (fun _ => false) (fun v => v)
         (VStr (lit "What is AI?")) (VObj [(lit "model", VStr (lit "exa-pro"))]) []
       = recording_request (lit "/answer") (lit "POST") (VObj sent) []
    /\ own (lit "model") body = Some (VStr (lit "exa-pro"))
    /\ own (lit "model") sent = Some (VStr (lit "exa-pro"))
    /\ own (lit "stream") body = Some (VBool true).
Proof.
  destruct (streamAnswer_sends _ _ recording_request (fun _ => false) (fun v => v)
              (VStr (lit "What is AI?"))
              (VObj [(lit "model", VStr (lit "exa-pro"))]) [])
    as [body [Hb [Hs H]]].
  destruct (H eq_refl) as [sent [Ha Hk]].
  exists body, sent. split; [exact Hb|]. split; [exact Ha|].
  injection Hb as <-.
  split; [reflexivity|]. split; [|reflexivity].
  rewrite <- (Hk (lit "model") eq_refl). reflexivity.
Defined.

Lemma request_headers_override_witness :
  let client := mkExa default_baseURL
                  [(lit "content-type", VStr (lit "application/json"));
                   (lit "x-api-key", VStr (lit "key"))] in
  let init := request_init (fun _ => lit "{}") (fun _ => []) (fun _ => [])
                client (lit "/search") (lit "GET") VUndefined None
                (Some [(lit "x-api-key", VStr (lit "other"))]) in
  own (lit "x-api-key") (fetch_headers init) = Some (VStr (lit "other"))
  /\ own (lit "content-type") (fetch_headers init)
     = Some (VStr (lit "application/json"))
  /\ fetch_body init = None.
Proof.
  intros client init.
  pose proof (request_headers_override (fun _ => lit "{}") (fun _ => [])
                (fun _ => []) client (lit "/search") (lit "GET") VUndefined
                None (Some [(lit "x-api-key", VStr (lit "other"))]))
    as [Hh [Hb _]].
  split; [exact (Hh (lit "x-api-key"))|].
  split; [exact (Hh (lit "content-type"))|].
  exact (Hb eq_refl).
Defined.
